(** * CodeClash (Python-Duel): matchmaking, battle rooms, validator, executor

    A shallow embedding of the back-end logic of the repository and the
    properties its specification states about it.  The back-end code lives in
    the repository's design documents:

    - [SCALE_TO_5000.md]: [Player], [RedisMatchmakingQueue]
      (add_to_queue, remove_from_queue, find_best_match, attempt_matchmaking,
      get_battle_room, get_player_battle_room, update_test_results);
    - [README.md]: the Socket.io handlers [disconnect] and [submit_code]
      (over [RedisMatchmakingQueue]);
    - [INTERVIEW_DEFENSE_GUIDE.md]: [check_forbidden_imports_ast], the
      validator gate of [execute_code], and the handler [sync_code];
    - [CONTRIBUTING.md]: [execute_java_code].

    Beyond what the specification speaks of, the development also covers
    [register_user] and [recent_logs] of [README.md], the session recovery of
    [SCALE_TO_5000.md] ([connect] and the persisting [submit_code]), and the
    client: [debounce], the socket listeners and the handlers of
    [frontend/src/App.jsx], and the editor handler of
    [INTERVIEW_DEFENSE_GUIDE.md].

    Conventions.  Python [int] is [Z], [str] is [string], [Optional] is
    [option], a [dict] used as a map is a [gmap].  Instants are integers
    (microseconds since the epoch); every operation that reads the clock takes
    the instant [now] as an argument.  Redis is modelled by its documented
    command semantics: string keys with an expiry ([SET ... EX], [GET], [DEL])
    and one sorted set ([ZADD], [ZREM], [ZCARD], [ZRANGE]). *)

From Stdlib Require Import ZArith Lia Ascii String.
From stdpp Require Import gmap strings list fin_maps sorting pretty.

Set Warnings "-register-all".

Local Open Scope Z_scope.

(** ** Redis commands *)

Module Redis.

(** A string key written with [SET key value EX ttl]: the value and the
    instant at which the key expires. *)
Record entry (V : Type) : Type := Entry { value : V; expires_at : Z }.
Arguments Entry {V} _ _.
Arguments value {V} _.
Arguments expires_at {V} _.

(** One second of the clock, in microseconds. *)
Definition second : Z := 1000000.

Section Keys.
Context {V : Type}.

(** [GET key]: the value, unless the key is absent or has expired. *)
Definition get (now : Z) (m : gmap string (entry V)) (k : string) : option V :=
  match m !! k with
  | Some e => if now <? expires_at e then Some (value e) else None
  | None => None
  end.

(** [SET key v EX ex]. *)
Definition setex (now : Z) (k : string) (v : V) (ex : Z)
    (m : gmap string (entry V)) : gmap string (entry V) :=
  <[k := Entry v (now + ex * second)]> m.

(** [DEL key]. *)
Definition del (k : string) (m : gmap string (entry V)) : gmap string (entry V) :=
  delete k m.
End Keys.

(** A sorted set: each member has one score. *)
Abbreviation zset := (gmap string Z).

Definition zadd (member : string) (score : Z) (q : zset) : zset :=
  <[member := score]> q.

Definition zrem (member : string) (q : zset) : zset := delete member q.

Definition zcard (q : zset) : Z := Z.of_nat (size q).

Definition zscore (q : zset) (member : string) : option Z := q !! member.

(** [ZRANGE] order: by score, members of equal score lexicographically. *)
Definition zle (x y : string * Z) : Prop :=
  x.2 < y.2 ∨ (x.2 = y.2 ∧ String.le x.1 y.1).

#[global] Instance zle_dec : RelDecision zle.
Proof. intros x y. unfold zle. apply _. Defined.

(** The members with their scores, in [ZRANGE] order. *)
Definition scored (q : zset) : list (string * Z) :=
  merge_sort zle (map_to_list q).

(** [ZRANGE key 0 -1]: all members in order. *)
Definition zrange_all (q : zset) : list string := (scored q).*1.

(** [ZRANGE key 0 0]: the first member in order, if any. *)
Definition zrange_first (q : zset) : list string := take 1 (zrange_all q).

End Redis.

(** ** Players and battle rooms (redis_matchmaking.py) *)

Record Player : Type := mkPlayer {
  user_id : string;
  username : string;
  elo_rating : Z;
  queue_time : Z;
  socket_id : string
}.

(** The [battle_data] dictionary of a room. *)
Record BattleRoom : Type := mkRoom {
  room_id : string;
  player1 : Player;
  player2 : Player;
  challenge_id : string;
  status : string;
  created_at : Z;
  player1_code : string;
  player2_code : string;
  player1_tests : Z;
  player2_tests : Z;
  total_tests : Z;
  winner_id : option string
}.

Definition set_total_tests (n : Z) (b : BattleRoom) : BattleRoom :=
  mkRoom (room_id b) (player1 b) (player2 b) (challenge_id b) (status b)
    (created_at b) (player1_code b) (player2_code b) (player1_tests b)
    (player2_tests b) n (winner_id b).

Definition set_player1_tests (n : Z) (b : BattleRoom) : BattleRoom :=
  mkRoom (room_id b) (player1 b) (player2 b) (challenge_id b) (status b)
    (created_at b) (player1_code b) (player2_code b) n
    (player2_tests b) (total_tests b) (winner_id b).

Definition set_player2_tests (n : Z) (b : BattleRoom) : BattleRoom :=
  mkRoom (room_id b) (player1 b) (player2 b) (challenge_id b) (status b)
    (created_at b) (player1_code b) (player2_code b) (player1_tests b)
    n (total_tests b) (winner_id b).

Definition set_player1_code (c : string) (b : BattleRoom) : BattleRoom :=
  mkRoom (room_id b) (player1 b) (player2 b) (challenge_id b) (status b)
    (created_at b) c (player2_code b) (player1_tests b)
    (player2_tests b) (total_tests b) (winner_id b).

Definition set_player2_code (c : string) (b : BattleRoom) : BattleRoom :=
  mkRoom (room_id b) (player1 b) (player2 b) (challenge_id b) (status b)
    (created_at b) (player1_code b) c (player1_tests b)
    (player2_tests b) (total_tests b) (winner_id b).

(** [battle_data['winner_id'] = w; battle_data['status'] = 'completed']. *)
Definition set_won (w : string) (b : BattleRoom) : BattleRoom :=
  mkRoom (room_id b) (player1 b) (player2 b) (challenge_id b) "completed"
    (created_at b) (player1_code b) (player2_code b) (player1_tests b)
    (player2_tests b) (total_tests b) (Some w).

(** The keys the class keeps in Redis.  The four key families have distinct
    prefixes ("queue:global", "player:", "room:", "player_room:"), so each
    family is a map of its own, indexed by what follows the prefix.
    [online] tells whether the Redis server answers; when it does not, every
    command raises and the methods take their [except] arm. *)
Record store : Type := mkStore {
  online : bool;
  queue : gmap string Z;
  players : gmap string (Redis.entry Player);
  rooms : gmap string (Redis.entry BattleRoom);
  player_room : gmap string (Redis.entry string)
}.

Definition set_queue (q : gmap string Z) (r : store) : store :=
  mkStore (online r) q (players r) (rooms r) (player_room r).
Definition set_players (p : gmap string (Redis.entry Player)) (r : store) : store :=
  mkStore (online r) (queue r) p (rooms r) (player_room r).
Definition set_rooms (m : gmap string (Redis.entry BattleRoom)) (r : store) : store :=
  mkStore (online r) (queue r) (players r) m (player_room r).
Definition set_player_room (m : gmap string (Redis.entry string)) (r : store) : store :=
  mkStore (online r) (queue r) (players r) (rooms r) m.

(** The result dictionary of [add_to_queue]:
    [{"success": True, "user_id": ...}] or [{"success": False, "error": ...}]. *)
Inductive add_result : Type :=
| AddSuccess (uid : string)
| AddFailure (error : string).

Definition add_success (r : add_result) : bool :=
  match r with AddSuccess _ => true | AddFailure _ => false end.

(** What [str(e)] gives for the connection error of an unreachable server. *)
Definition connection_error : string := "Error connecting to Redis".

Module Matchmaking.

(** The time to live of every key the class writes: [ex=3600]. *)
Definition TTL : Z := 3600.

Definition get_queue_size (r : store) : Z := Redis.zcard (queue r).

(** [add_to_queue]: builds the [Player], then in one pipeline stores the
    player record and adds the identity to the sorted set with the current
    timestamp as score.  There is no test for an identity that is queued
    already. *)
Definition add_to_queue (now : Z) (uid uname : string) (elo : Z) (sid : string)
    (r : store) : store * add_result :=
  let player := mkPlayer uid uname elo now sid in
  if online r then
    let r1 := set_players (Redis.setex now uid player TTL (players r)) r in
    let r2 := set_queue (Redis.zadd uid now (queue r1)) r1 in
    (r2, AddSuccess uid)
  else (r, AddFailure connection_error).

(** [remove_from_queue]. *)
Definition remove_from_queue (uid : string) (r : store) : store * bool :=
  if online r then
    let r1 := set_queue (Redis.zrem uid (queue r)) r in
    let r2 := set_players (Redis.del uid (players r1)) r1 in
    (r2, true)
  else (r, false).

(** The loop state of [find_best_match]: [best_match] and [closest_diff],
    where [None] stands for [float('inf')]. *)
Definition scan : Type := option string * option Z.

(** [elo_diff < closest_diff]. *)
Definition below (d : Z) (closest : option Z) : bool :=
  match closest with
  | None => true
  | Some c => d <? c
  end.

(** One iteration of the [for candidate_id in queue_user_ids] loop. *)
Definition scan_step (now : Z) (r : store) (player_id : string) (player_elo : Z)
    (elo_tolerance : Z) (acc : scan) (candidate_id : string) : scan :=
  if decide (candidate_id = player_id) then acc
  else
    match Redis.get now (players r) candidate_id with
    | None => acc
    | Some candidate =>
        let elo_diff := Z.abs (player_elo - elo_rating candidate) in
        if below elo_diff acc.2 && (elo_diff <=? elo_tolerance)
        then (Some candidate_id, Some elo_diff)
        else acc
    end.

(** [find_best_match(player_id, elo_tolerance)]. *)
Definition find_best_match (now : Z) (r : store) (player_id : string)
    (elo_tolerance : Z) : option string :=
  if online r then
    match Redis.get now (players r) player_id with
    | None => None
    | Some player =>
        let player_elo := elo_rating player in
        let queue_user_ids := Redis.zrange_all (queue r) in
        (foldl (scan_step now r player_id player_elo elo_tolerance)
               (None, None) queue_user_ids).1
    end
  else None.

(** The default of the [elo_tolerance] parameter. *)
Definition default_tolerance : Z := 200.

(** The dictionary [attempt_matchmaking] builds for a new room. *)
Definition new_battle (now : Z) (rid : string) (p1 p2 : Player) (cid : string)
    : BattleRoom :=
  mkRoom rid p1 p2 cid "in_progress" now "" "" 0 0 0 None.

(** [attempt_matchmaking(challenge_id)].  [uuid12] is what
    [uuid.uuid4().hex[:12]] returns in this call.  [if not player2_id] also
    takes the empty identity for no match. *)
Definition attempt_matchmaking (now : Z) (uuid12 : string) (cid : string)
    (r : store) : store * option BattleRoom :=
  if online r then
    if get_queue_size r <? 2 then (r, None)
    else
      match Redis.zrange_first (queue r) with
      | [] => (r, None)
      | player1_id :: _ =>
          match find_best_match now r player1_id default_tolerance with
          | None => (r, None)
          | Some player2_id =>
              if decide (player2_id = "") then (r, None)
              else
                match Redis.get now (players r) player1_id,
                      Redis.get now (players r) player2_id with
                | Some player1_data, Some player2_data =>
                    let rid := "room_" +:+ uuid12 in
                    let battle_data :=
                      new_battle now rid player1_data player2_data cid in
                    let q := Redis.zrem player2_id (Redis.zrem player1_id (queue r)) in
                    let rm := Redis.setex now rid battle_data TTL (rooms r) in
                    let pr := Redis.setex now player2_id rid TTL
                                (Redis.setex now player1_id rid TTL (player_room r)) in
                    (mkStore (online r) q (players r) rm pr, Some battle_data)
                | _, _ => (r, None)
                end
          end
      end
  else (r, None).

(** [get_battle_room(room_id)], for a server that answers. *)
Definition get_battle_room (now : Z) (r : store) (rid : string) : option BattleRoom :=
  Redis.get now (rooms r) rid.

(** [get_player_battle_room(user_id)], for a server that answers. *)
Definition get_player_battle_room (now : Z) (r : store) (uid : string)
    : option BattleRoom :=
  match Redis.get now (player_room r) uid with
  | Some rid => if decide (rid = "") then None else get_battle_room now r rid
  | None => None
  end.

(** The assignments [update_test_results] makes to the [battle_data]
    dictionary it has loaded: the total, the count of player1 or else of
    player2, and on a full score the winner and the status. *)
Definition record_results (player_id : string) (tests_passed total : Z)
    (battle_data : BattleRoom) : BattleRoom :=
  let b1 := set_total_tests total battle_data in
  let b2 :=
    if decide (player_id = user_id (player1 b1))
    then set_player1_tests tests_passed b1
    else set_player2_tests tests_passed b1 in
  if decide (tests_passed = total) then set_won player_id b2 else b2.

(** [update_test_results(room_id, player_id, tests_passed, total_tests)]. *)
Definition update_test_results (now : Z) (rid player_id : string)
    (tests_passed total : Z) (r : store) : store * bool :=
  if online r then
    match get_battle_room now r rid with
    | None => (r, false)
    | Some battle_data =>
        let b := record_results player_id tests_passed total battle_data in
        (set_rooms (Redis.setex now rid b TTL (rooms r)) r, true)
    end
  else (r, false).

End Matchmaking.

(** ** The validator (sandbox_runner.py, AST version) *)

Module Validator.

(** [ast.alias]: the name of an imported module and its optional [as] name. *)
Record alias : Type := mkAlias { alias_name : string; asname : option string }.

(** The syntax tree [ast.parse] returns.  The node classes the validator tests
    for ([Import], [ImportFrom], [Call], [Name], [Attribute]) are constructors
    of their own; every other class ([Module], [Expr], [Assign],
    [FunctionDef], [Subscript], ...) is an [Other] node with its child nodes
    in field order. *)
Inductive node : Type :=
| Import (names : list alias)
| ImportFrom (module : option string) (names : list alias) (level : Z)
| Call (func : node) (args : list node) (keywords : list node)
| Name (id : string)
| Attribute (value : node) (attr : string)
| Constant (repr : string)
| Other (kind : string) (children : list node).

(** [ast.iter_child_nodes]: the fields of a node that are nodes, in field
    order.  An [alias] and an expression context ([Load]) are nodes too; they
    have no children and match no test of the validator. *)
Definition iter_child_nodes (n : node) : list node :=
  match n with
  | Import names => map (fun _ => Other "alias" []) names
  | ImportFrom _ names _ => map (fun _ => Other "alias" []) names
  | Call func args keywords => func :: args ++ keywords
  | Name _ => [Other "Load" []]
  | Attribute value _ => [value; Other "Load" []]
  | Constant _ => []
  | Other _ children => children
  end.

(** The number of levels below a node (an upper bound of it). *)
Fixpoint height (n : node) : nat :=
  match n with
  | Import _ => 1
  | ImportFrom _ _ _ => 1
  | Call func args keywords =>
      S (Nat.max (height func)
           (Nat.max (list_max (map height args)) (list_max (map height keywords))))
  | Name _ => 1
  | Attribute value _ => S (height value)
  | Constant _ => 0
  | Other _ children => list_max (map (fun c => S (height c)) children)
  end.

(** [m] is a node of the tree [n]: [n] itself, or a node of a child. *)
Inductive subnode (m : node) : node → Prop :=
| subnode_here : subnode m m
| subnode_child (n c : node) :
    c ∈ iter_child_nodes n → subnode m c → subnode m n.

(** [ast.walk] is breadth first: a queue that starts with the root, and each
    node taken from its front appends its children at the back.  That is the
    tree level by level. *)
Fixpoint walk_levels (fuel : nat) (level : list node) : list node :=
  match fuel with
  | O => level
  | S fuel' =>
      match level with
      | [] => []
      | _ => level ++ walk_levels fuel' (concat (map iter_child_nodes level))
      end
  end.

Definition walk (tree : node) : list node := walk_levels (height tree) [tree].

Definition FORBIDDEN_IMPORTS : list string :=
  [ "os"; "sys"; "subprocess"; "shutil"; "socket"; "requests";
    "urllib"; "http"; "ftplib"; "smtplib"; "ssl"; "threading";
    "multiprocessing"; "asyncio"; "__import__"; "importlib" ].

Definition mem (s : string) (l : list string) : bool := bool_decide (s ∈ l).

(** [s.split('.')[0]]: what comes before the first dot. *)
Fixpoint first_component (s : string) : string :=
  match s with
  | EmptyString => EmptyString
  | String c rest =>
      if Ascii.eqb c "."%char then EmptyString else String c (first_component rest)
  end.

(** The inner loop over the names of an [Import]. *)
Fixpoint check_aliases (names : list alias) : option string :=
  match names with
  | [] => None
  | a :: rest =>
      let module_name := first_component (alias_name a) in
      if mem module_name FORBIDDEN_IMPORTS
      then Some ("Forbidden import detected: " +:+ module_name)
      else check_aliases rest
  end.

(** The body of the [for node in ast.walk(tree)] loop: the message of the
    [return False, ...] the node triggers, if it triggers one. *)
Definition check_node (n : node) : option string :=
  match n with
  | Import names => check_aliases names
  | ImportFrom module _ _ =>
      let module_name :=
        match module with
        | Some m => if decide (m = "") then "" else first_component m
        | None => ""
        end in
      if mem module_name FORBIDDEN_IMPORTS
      then Some ("Forbidden import detected: " +:+ module_name)
      else None
  | Call (Name id) _ _ =>
      if mem id ["__import__"; "eval"; "exec"; "compile"; "open"]
      then Some ("Dangerous function call blocked: " +:+ id)
      else None
  | Call (Attribute _ attr) _ _ =>
      if mem attr ["__import__"; "__loader__"]
      then Some ("Dangerous attribute access blocked: " +:+ attr)
      else None
  | _ => None
  end.

Fixpoint check_nodes (l : list node) : bool * string :=
  match l with
  | [] => (true, "")
  | n :: rest =>
      match check_node n with
      | Some msg => (false, msg)
      | None => check_nodes rest
      end
  end.

(** [check_forbidden_imports_ast] on what [ast.parse(code)] gave: the tree, or
    the text of the [SyntaxError]. *)
Definition check_parsed (parsed : node + string) : bool * string :=
  match parsed with
  | inr e => (false, "Syntax error in code: " +:+ e)
  | inl tree => check_nodes (walk tree)
  end.

Section Parser.
(** Python's parser. *)
Variable ast_parse : string → node + string.

Definition check_forbidden_imports_ast (code : string) : bool * string :=
  check_parsed (ast_parse code).
End Parser.

(** The tree of the one-line program
    [getattr(__builtins__, '__import__')('os')]: an expression statement whose
    value is a call whose function is itself a call, of [getattr]. *)
Definition getattr_import_os : node :=
  Other "Module"
    [ Other "Expr"
        [ Call
            (Call (Name "getattr")
                  [Name "__builtins__"; Constant "'__import__'"] [])
            [Constant "'os'"] [] ] ].

(** The trees of [import os as o], [from os import system],
    [__import__('os')] and [__builtins__.__import__('os')]. *)
Definition import_os_as_o : node :=
  Other "Module" [ Import [mkAlias "os" (Some "o")] ].
Definition from_os_import_system : node :=
  Other "Module" [ ImportFrom (Some "os") [mkAlias "system" None] 0 ].
Definition dunder_import_os : node :=
  Other "Module" [ Other "Expr" [ Call (Name "__import__") [Constant "'os'"] [] ] ].
Definition builtins_attr_import_os : node :=
  Other "Module"
    [ Other "Expr"
        [ Call (Attribute (Name "__builtins__") "__import__") [Constant "'os'"] [] ] ].

End Validator.

(** ** Values, child processes *)

(** A JSON document, as [json.loads] returns it and [json.dumps] takes it. *)
Inductive json : Type :=
| JNull
| JBool (b : bool)
| JNum (n : Z)
| JStr (s : string)
| JArr (items : list json)
| JObj (fields : list (string * json)).

(** [d[key]] on a loaded document: the value, or the text of the [KeyError]
    or [TypeError] the subscript raises.  The keys of a loaded object are
    distinct. *)
Definition subscript (d : json) (key : string) : json + string :=
  match d with
  | JObj fields =>
      match list_find (fun kv => kv.1 = key) fields with
      | Some (_, (_, v)) => inl v
      | None => inr ("'" +:+ key +:+ "'")
      end
  | JArr _ => inr "list indices must be integers or slices, not str"
  | JStr _ => inr "string indices must be integers, not 'str'"
  | JNum _ => inr "'int' object is not subscriptable"
  | JBool _ => inr "'bool' object is not subscriptable"
  | JNull => inr "'NoneType' object is not subscriptable"
  end.

Module Subprocess.

(** What a child process does when nothing stops it: it fails to start, it
    exits after [duration] microseconds with a return code and its output, or
    it never exits. *)
Inductive child : Type :=
| SpawnFails (error : string)
| Exits (duration : Z) (returncode : Z) (stdout stderr : string)
| Hangs.

(** What happens to the child of one [subprocess.run]. *)
Inductive fate : Type :=
| NotStarted
| ExitedByItself
| Killed.

(** What [subprocess.run(..., timeout=t)] gives its caller. *)
Inductive outcome : Type :=
| Completed (returncode : Z) (stdout stderr : string)
| TimeoutExpired
| OSError (error : string).

(** [subprocess.run(cmd, capture_output=True, timeout=t)]: a child still
    running when [t] seconds have passed is killed and waited for, and
    [TimeoutExpired] is raised. *)
Definition run (c : child) (timeout : Z) : outcome * fate :=
  match c with
  | SpawnFails e => (OSError e, NotStarted)
  | Exits duration rc out err =>
      if duration <=? timeout * Redis.second
      then (Completed rc out err, ExitedByItself)
      else (TimeoutExpired, Killed)
  | Hangs => (TimeoutExpired, Killed)
  end.

(** The child is still running when [timeout] seconds have passed. *)
Definition overruns (c : child) (timeout : Z) : Prop :=
  match c with
  | SpawnFails _ => False
  | Exits duration _ _ _ => timeout * Redis.second < duration
  | Hangs => True
  end.

End Subprocess.

(** ** The Java executor (java_executor.py) *)

Module JavaExecutor.

Definition FORBIDDEN : list string :=
  [ "java.lang.Runtime"; "java.lang.ProcessBuilder"; "java.io.File";
    "java.nio.file"; "java.net.Socket"; "java.sql" ].

(** [pat in s] on strings. *)
Fixpoint contains (pat s : string) : bool :=
  String.prefix pat s ||
  match s with
  | EmptyString => false
  | String _ rest => contains pat rest
  end.

(** [check_forbidden_imports_java].  The source iterates over a set; the
    list gives the elements in the order the source writes them. *)
Fixpoint check_forbidden_in (forbidden : list string) (code : string)
    : bool * string :=
  match forbidden with
  | [] => (true, "")
  | f :: rest =>
      if contains f code then (false, "Forbidden import: " +:+ f)
      else check_forbidden_in rest code
  end.

Definition check_forbidden_imports_java (code : string) : bool * string :=
  check_forbidden_in FORBIDDEN code.

(** The program [build_java_test_wrapper] writes: a fixed Java text with
    three holes, given by what fills them. *)
Record wrapper : Type := mkWrapper {
  test_cases_json : string;
  class_name : string;
  user_code : string
}.

(** The dictionary [execute_java_code] returns; the keys ["test_results"] and
    ["error"] are present in some of the returns only. *)
Record result : Type := mkResult {
  success : bool;
  passed_tests : json;
  total_tests : json;
  test_results : option json;
  error : option string
}.

(** The returns that report a failure. *)
Definition failed (test_cases : list json) (msg : string) : result :=
  mkResult false (JNum 0) (JNum (Z.of_nat (length test_cases))) None (Some msg).

Section Environment.
(** [json.dumps] and [json.loads] ([inr]: the text of the decode error). *)
Variable json_dumps : list json → string.
Variable json_loads : string → json + string.
(** The compiler and the virtual machine started on a wrapper program. *)
Variable javac : wrapper → Subprocess.child.
Variable java : wrapper → Subprocess.child.

Definition build_java_test_wrapper (code : string) (test_cases : list json)
    (cls : string) : wrapper :=
  mkWrapper (json_dumps test_cases) cls code.

(** [execute_java_code(user_code, test_cases, class_name, timeout)], with the
    fate of the child processes it starts (compiler, then virtual machine).
    Writing the wrapper file is part of the compiler step, and the output of
    a child is taken as already decoded. *)
Definition execute_java_code (code : string) (test_cases : list json)
    (cls : string) (timeout : Z) : result * list Subprocess.fate :=
  let (is_safe, err) := check_forbidden_imports_java code in
  if negb is_safe then (failed test_cases err, [])
  else
    let wrapper_code := build_java_test_wrapper code test_cases cls in
    let timed_out :=
      failed test_cases ("Timeout: execution exceeded " +:+ pretty timeout +:+ "s") in
    let raised (e : string) := failed test_cases ("Execution error: " +:+ e) in
    match Subprocess.run (javac wrapper_code) 10 with
    | (Subprocess.TimeoutExpired, f1) => (timed_out, [f1])
    | (Subprocess.OSError e, f1) => (raised e, [f1])
    | (Subprocess.Completed rc _ stderr, f1) =>
        if negb (rc =? 0)
        then (failed test_cases ("Compilation error: " +:+ stderr), [f1])
        else
          match Subprocess.run (java wrapper_code) timeout with
          | (Subprocess.TimeoutExpired, f2) => (timed_out, [f1; f2])
          | (Subprocess.OSError e, f2) => (raised e, [f1; f2])
          | (Subprocess.Completed _ output _, f2) =>
              match json_loads output with
              | inr e => (raised e, [f1; f2])
              | inl res =>
                  match subscript res "passed", subscript res "total",
                        subscript res "test_results" with
                  | inl p, inl t, inl tr =>
                      (mkResult true p t (Some tr) None, [f1; f2])
                  | inr e, _, _ => (raised e, [f1; f2])
                  | _, inr e, _ => (raised e, [f1; f2])
                  | _, _, inr e => (raised e, [f1; f2])
                  end
              end
          end
    end.

End Environment.

End JavaExecutor.

(** ** The Python executor (sandbox_runner.py) *)

Module Sandbox.

(** One entry of [test_results]: the outcome of one test case and its
    diagnostic text. *)
Inductive verdict : Type := Pass | Fail | Error.

Record test_record : Type := mkRecord { outcome : verdict; diagnostic : string }.

(** The [ExecutionResult] dataclass. [execution_time] is in microseconds. *)
Record ExecutionResult : Type := mkExecutionResult {
  success : bool;
  passed_tests : Z;
  total_tests : Z;
  test_results : list test_record;
  output : string;
  error : string;
  execution_time : Z
}.

Section Environment.
(** Python's parser. *)
Variable ast_parse : string → Validator.node + string.
(** The part of [execute_code] that follows the validator gate.  The sources
    leave it out ("rest of execute_code logic remains the same"): whatever it
    does is given as this function of the arguments of [execute_code]. *)
Variable rest_of_execute_code :
  string → list json → string → Z → ExecutionResult.

(** [execute_code(user_code, test_cases, function_name, timeout)]: the
    validator gate of the source, then the rest. *)
Definition execute_code (user_code : string) (test_cases : list json)
    (function_name : string) (timeout : Z) : ExecutionResult :=
  let (is_safe, error_msg) := Validator.check_forbidden_imports_ast ast_parse user_code in
  if negb is_safe then
    mkExecutionResult false 0 (Z.of_nat (length test_cases)) [] "" error_msg 0
  else rest_of_execute_code user_code test_cases function_name timeout.

End Environment.

End Sandbox.

(** ** The Socket.io handlers (main.py) *)

Module Handlers.

Import Matchmaking.

(** An entry of [connected_users]. *)
Record user_info : Type := mkUserInfo {
  info_socket_id : string;
  info_username : string;
  info_elo_rating : Z;
  connected_at : Z
}.

(** The state of the server process and of the Redis server behind it.
    [last_sync_timestamps] is a [defaultdict] of [defaultdict]s. *)
Record server : Type := mkServer {
  redis : store;
  connected_users : gmap string user_info;
  socket_to_user : gmap string string;
  last_sync_timestamps : gmap string (gmap string Z)
}.

Definition set_redis (r : store) (s : server) : server :=
  mkServer r (connected_users s) (socket_to_user s) (last_sync_timestamps s).

(** What [submit_code] and [sync_code] send with [sio.emit]: the event, its
    payload, and the [to] (a socket or a room) it is sent to. *)
Inductive emitted : Type :=
| error_event (message : string) (to : string)
| opponent_code_update (code uid : string) (timestamp : Z) (to skip_sid : string).

(** [disconnect(sid)]. *)
Definition disconnect (sid : string) (s : server) : server :=
  match socket_to_user s !! sid with
  | None => s
  | Some uid =>
      if decide (uid = "") then s
      else
        let r := (remove_from_queue uid (redis s)).1 in
        mkServer r (delete uid (connected_users s)) (delete sid (socket_to_user s))
          (last_sync_timestamps s)
  end.

(** Modelled from the spec: [update_player_code(room_id, user_id, code)],
    a method of the matchmaking class that the repository's files call but do
    not define.  Section 4.5: a code-sync update overwrites that participant's
    stored code, with no state change.  The slot is chosen as the source
    chooses it wherever it stores per-player data ([update_test_results], the
    persisting [submit_code]): player1 if the identity is player1's,
    otherwise player2; the room is written back as every write of the class
    is, with the time to live of the class. *)
Definition write_code (uid code : string) (battle_data : BattleRoom) : BattleRoom :=
  if decide (uid = user_id (player1 battle_data))
  then set_player1_code code battle_data
  else set_player2_code code battle_data.

Definition update_player_code (now : Z) (rid uid code : string) (r : store)
    : store * bool :=
  if online r then
    match get_battle_room now r rid with
    | None => (r, false)
    | Some battle_data =>
        (set_rooms (Redis.setex now rid (write_code uid code battle_data) TTL (rooms r)) r,
         true)
    end
  else (r, false).

(** [last_sync_timestamps[key]]: reading a missing key of a [defaultdict]
    creates it. *)
Definition touch (key : string) (m : gmap string (gmap string Z))
    : gmap string (gmap string Z) :=
  match m !! key with
  | Some _ => m
  | None => <[key := ∅]> m
  end.

Definition set_last_sync (m : gmap string (gmap string Z)) (s : server) : server :=
  mkServer (redis s) (connected_users s) (socket_to_user s) m.

(** [sync_code(sid, data)] with [data = {user_id, room_id, code, timestamp}];
    a payload without ["timestamp"] has [timestamp = 0]. *)
Definition sync_code (now : Z) (sid uid rid code : string) (timestamp : Z)
    (s : server) : server * list emitted :=
  if online (redis s) then
    match get_battle_room now (redis s) rid with
    | None => (s, [])
    | Some _ =>
        let key := rid +:+ ":" +:+ uid in
        let m := touch key (last_sync_timestamps s) in
        let last_ts := default 0 (m !! key ≫= (.!! "timestamp")) in
        if (0 <? timestamp) && (timestamp - last_ts <? 200)
        then (set_last_sync m s, [])
        else
          let m' := <[key := <["timestamp" := timestamp]> (default ∅ (m !! key))]> m in
          let s1 := set_last_sync m' s in
          let s2 := set_redis (update_player_code now rid uid code (redis s1)).1 s1 in
          (s2, [opponent_code_update code uid timestamp rid sid])
    end
  else (s, []).

(** The text of the [AttributeError] Python raises when an attribute is read
    on a [dict]. *)
Definition no_attribute (name : string) : string :=
  "'dict' object has no attribute '" +:+ name +:+ "'".

(** [submit_code(sid, data)] with [data = {user_id, room_id, code}]
    (README.md), over [RedisMatchmakingQueue].  [get_battle_room] returns the
    room as a [dict] ([json.loads] of the stored text), and the handler reads
    [battle_room.challenge_id] on it: the read raises [AttributeError].  A
    command sent to a server that does not answer raises as well.  The
    handler catches what is raised and reports its text to the sender; the
    statements after the read (the run of the code, [update_test_results],
    the two broadcasts) are not reached. *)
Definition submit_code (now : Z) (sid uid rid code : string) (s : server)
    : server * list emitted :=
  if online (redis s) then
    match get_battle_room now (redis s) rid with
    | None => (s, [error_event "Battle room not found" sid])
    | Some battle_room => (s, [error_event (no_attribute "challenge_id") sid])
    end
  else (s, [error_event connection_error sid]).

End Handlers.

(** ** Vocabulary of the queue properties *)

Module QueueSpec.

(** The rating difference [find_best_match] computes for a candidate of the
    player [player_id] of rating [player_elo]; none for the player itself and
    for an identity without a player record. *)
Definition candidate_diff (now : Z) (r : store) (player_id : string)
    (player_elo : Z) (candidate_id : string) : option Z :=
  if decide (candidate_id = player_id) then None
  else (fun p => Z.abs (player_elo - elo_rating p))
         <$> Redis.get now (players r) candidate_id.

(** What the loop of [find_best_match] has found after the candidates [l]:
    nothing, and then no candidate is within the tolerance; or a candidate
    within the tolerance that is strictly closer than every candidate before
    it and at least as close as every candidate after it. *)
Definition scan_result (now : Z) (r : store) (player_id : string)
    (player_elo tol : Z) (l : list string) (acc : Matchmaking.scan) : Prop :=
  let diff := candidate_diff now r player_id player_elo in
  match acc with
  | (None, None) => ∀ c d, c ∈ l → diff c = Some d → tol < d
  | (Some c, Some d) =>
      ∃ l1 l2, l = l1 ++ c :: l2 ∧ diff c = Some d ∧ d ≤ tol ∧
        (∀ c' d', c' ∈ l1 → diff c' = Some d' → d < d') ∧
        (∀ c' d', c' ∈ l2 → diff c' = Some d' → d ≤ d')
  | _ => False
  end.



(** Every queued identity is a non-empty string and has its player record:
    what [add_to_queue] establishes for the identities the handlers accept,
    for as long as the record lives. *)
Definition queue_ready (now : Z) (r : store) : Prop :=
  ∀ m, is_Some (queue r !! m) → m ≠ "" ∧ is_Some (Redis.get now (players r) m).


End QueueSpec.

(** ** Vocabulary of the room properties *)

Module RoomSpec.

(** A submission as the room sees it: who submitted, how many tests passed,
    out of how many. *)
Record submission : Type := mkSubmission {
  submitter : string;
  passed : Z;
  total : Z
}.

Definition full_score (s : submission) : Prop := passed s = total s.

#[global] Instance full_score_dec (s : submission) : Decision (full_score s).
Proof. unfold full_score. apply _. Defined.

(** The rooms the code can produce: [attempt_matchmaking] creates a room, and
    each [update_test_results] records one more submission in it. *)
Inductive history : BattleRoom → list submission → Prop :=
| history_created (now : Z) (rid : string) (p1 p2 : Player) (cid : string) :
    history (Matchmaking.new_battle now rid p1 p2 cid) []
| history_submission (b : BattleRoom) (subs : list submission) (s : submission) :
    history b subs →
    history (Matchmaking.record_results (submitter s) (passed s) (total s) b)
            (subs ++ [s]).

End RoomSpec.

(** ** Vocabulary of the handler properties *)

Module HandlerSpec.

Import Handlers.

(** The timestamp of the last sync the server has kept for a participant of
    a room (0 if none). *)
Definition last_sync (s : server) (uid rid : string) : Z :=
  default 0 (last_sync_timestamps s !! (rid +:+ ":" +:+ uid) ≫= (.!! "timestamp")).

(** The test of [sync_code] that drops an event: a timestamp is given and it
    is less than 200 ms after the last one kept. *)
Definition deduplicated (s : server) (uid rid : string) (timestamp : Z) : bool :=
  (0 <? timestamp) && (timestamp - last_sync s uid rid <? 200).

End HandlerSpec.

(** ** Concrete states used in examples *)

Module Scenario.

Import Matchmaking.

(** A reachable Redis server with no keys. *)
Definition empty_store : store := mkStore true ∅ ∅ ∅ ∅.

(** alice (rating 1000) joins at second 1, bob (1100) at second 3, carol
    (1500) at second 9. *)
Definition alice_queued : store :=
  (add_to_queue 1000000 "alice" "Alice" 1000 "sidA" empty_store).1.
Definition two_queued : store :=
  (add_to_queue 3000000 "bob" "Bob" 1100 "sidB" alice_queued).1.
Definition three_queued : store :=
  (add_to_queue 9000000 "carol" "Carol" 1500 "sidC" two_queued).1.

(** The room of alice and bob, created at second 4. *)
Definition battle_store : store :=
  (attempt_matchmaking 4000000 "0123456789ab" "palindrome" two_queued).1.

Definition battle_room_id : string := "room_0123456789ab".

Definition battle : Handlers.server :=
  Handlers.mkServer battle_store
    {[ "alice" := Handlers.mkUserInfo "sidA" "Alice" 1000 500000;
       "bob" := Handlers.mkUserInfo "sidB" "Bob" 1100 2500000 ]}
    {[ "sidA" := "alice"; "sidB" := "bob" ]}
    ∅.

(** Two stand-ins for the part of [execute_code] the sources leave out: one
    reports every test as passed, the other none. *)
Definition all_pass (code : string) (cases : list json) (entry : string) (timeout : Z)
    : Sandbox.ExecutionResult :=
  Sandbox.mkExecutionResult true (Z.of_nat (length cases)) (Z.of_nat (length cases))
    [] "" "" 0.
Definition none_pass (code : string) (cases : list json) (entry : string) (timeout : Z)
    : Sandbox.ExecutionResult :=
  Sandbox.mkExecutionResult false 0 (Z.of_nat (length cases)) [] "" "" 0.

(** Scenario C: the compiler takes two seconds; the program needs ten
    seconds and would then print its report. *)
Definition json_dumps (cases : list json) : string := "[]".
Definition json_loads (doc : string) : json + string :=
  inl (JObj [("passed", JNum 1); ("total", JNum 1); ("test_results", JArr [])]).
Definition javac (w : JavaExecutor.wrapper) : Subprocess.child :=
  Subprocess.Exits 2000000 0 "" "".
Definition slow_java (w : JavaExecutor.wrapper) : Subprocess.child :=
  Subprocess.Exits 10000000 0 "{}" "".

(** alice's result, five tests passed out of five, has been recorded at
    second 5: the room is completed, with alice as winner. *)
Definition battle_won : store :=
  (update_test_results 5000000 battle_room_id "alice" 5 5 battle_store).1.


(** alice has synced the text "a" with timestamp 1000 (milliseconds). *)
Definition battle_synced : Handlers.server :=
  (Handlers.sync_code 5000000 "sidA" "alice" battle_room_id "a" 1000 battle).1.

(** The same sync as the handler leaves the server when its call of
    [update_player_code] raises, the class not defining that method: the
    timestamp is written before the call, nothing is stored or sent. *)
Definition battle_stamped : Handlers.server :=
  Handlers.set_last_sync
    {[ battle_room_id +:+ ":alice" := {[ "timestamp" := 1000 ]} ]} battle.

End Scenario.

(** ** Registration handlers (main.py) and runs of handlers *)

Module Registration.

Import Handlers.

(** What [connect] and [register_user] send. *)
Inductive notice : Type :=
| connection_response (data : string) (to : string)
| registration_error (message : string) (to : string)
| user_registered (uid uname message : string) (to : string).

(** [connect(sid, environ)] (README.md): a greeting to the new socket. *)
Definition connect (sid : string) (s : server) : server * list notice :=
  (s, [connection_response "Connected to server" sid]).

(** [not x] for a value read with [data.get]: the key is missing, or the
    string is empty. *)
Definition missing (x : option string) : bool :=
  match x with
  | None => true
  | Some v => bool_decide (v = "")
  end.

(** [register_user(sid, data)] with [data = {user_id, username, elo_rating}],
    each key possibly absent; [elo_rating] defaults to 1000.  [now] is the
    instant of [connected_at]. *)
Definition register_user (now : Z) (sid : string) (uid uname : option string)
    (elo : option Z) (s : server) : server * list notice :=
  let elo_rating := default 1000 elo in
  if missing uid || missing uname
  then (s, [registration_error "Missing user_id or username" sid])
  else
    let user_id := default "" uid in
    let username := default "" uname in
    (mkServer (redis s)
       (<[user_id := mkUserInfo sid username elo_rating now]> (connected_users s))
       (<[sid := user_id]> (socket_to_user s))
       (last_sync_timestamps s),
     [user_registered user_id username "User registered successfully" sid]).

(** One [sync_code] event of a participant: the instant it is handled, the
    code and the timestamp it carries. *)
Record sync_event : Type := mkSync { at_instant : Z; sync_text : string; sync_ts : Z }.

(** The handler run on a sequence of events of one socket, identity and room:
    the final state and everything sent, in order. *)
Fixpoint sync_all (sid uid rid : string) (events : list sync_event) (s : server)
    : server * list emitted :=
  match events with
  | [] => (s, [])
  | e :: rest =>
      let '(s1, sent1) := sync_code (at_instant e) sid uid rid (sync_text e) (sync_ts e) s in
      let '(s2, sent2) := sync_all sid uid rid rest s1 in
      (s2, sent1 ++ sent2)
  end.

(** The timestamps of the updates sent, in order. *)
Definition update_timestamps (sent : list emitted) : list Z :=
  omap (fun e => match e with
                 | opponent_code_update _ _ ts _ _ => Some ts
                 | _ => None
                 end) sent.

(** Each element of the list, from the second on, is either not positive or
    at least [gap] more than the one before it. *)
Fixpoint spaced (gap : Z) (l : list Z) : Prop :=
  match l with
  | t1 :: ((t2 :: _) as rest) => (t2 ≤ 0 ∨ gap ≤ t2 - t1) ∧ spaced gap rest
  | _ => True
  end.

(** One [submit_code] event: the instant it is handled, the socket, and the
    payload. *)
Record submit_event : Type := mkSubmit {
  submit_at : Z;
  submit_sid : string;
  submit_user : string;
  submit_room : string;
  submit_text : string
}.

(** The handler run on a sequence of [submit_code] events: the final state
    and everything sent, in order. *)
Fixpoint submit_all (events : list submit_event) (s : server)
    : server * list emitted :=
  match events with
  | [] => (s, [])
  | e :: rest =>
      let '(s1, sent1) :=
        submit_code (submit_at e) (submit_sid e) (submit_user e) (submit_room e)
          (submit_text e) s in
      let '(s2, sent2) := submit_all rest s1 in
      (s2, sent1 ++ sent2)
  end.

(** How a [submit_code] event is answered in the state [s]: with one error,
    sent to the socket of the event; on a server that answers, its text is
    ["Battle room not found"] for a room that cannot be read, and the text of
    the [AttributeError] for a room that can. *)
Definition answered (s : server) (e : submit_event) (out : emitted) : Prop :=
  ∃ msg, out = error_event msg (submit_sid e) ∧
    (online (redis s) = true →
     msg = match Matchmaking.get_battle_room (submit_at e) (redis s) (submit_room e) with
           | None => "Battle room not found"
           | Some _ => no_attribute "challenge_id"
           end).

End Registration.

(** ** Vocabulary of the validator properties *)

Module ValidatorSpec.

(** The string has no dot. *)
Fixpoint no_dot (s : string) : bool :=
  match s with
  | EmptyString => true
  | String c rest => negb (Ascii.eqb c "."%char) && no_dot rest
  end.

(** The dotted name [name] is the module [m] or lies below it: [m] itself, or
    [m] followed by a dot and more. *)
Definition within_module (m name : string) : Prop :=
  name = m ∨ ∃ rest, name = m +:+ "." +:+ rest.

(** A program text the demonstration parser maps to [import os.path as p]
    inside a function body. *)
Definition nested_import : Validator.node :=
  Validator.Other "Module"
    [ Validator.Other "FunctionDef"
        [ Validator.Other "arguments" [];
          Validator.Import [Validator.mkAlias "os.path" (Some "p")] ] ].

Definition parse_nested_import (code : string) : Validator.node + string :=
  inl nested_import.

End ValidatorSpec.

(** ** The log endpoint (main.py) *)

Module Logs.

(** An element of the ["logs"] list: a line that parsed, or
    [{"raw": line.strip()}]. *)
Inductive log_entry : Type :=
| parsed_line (doc : json)
| raw_line (text : string).

(** The dictionary [recent_logs] returns; ["error"] and ["total"] are present
    in one of the two returns each. *)
Record response : Type := mkResponse {
  logs : list log_entry;
  log_error : option string;
  log_total : option Z
}.

(** [l[start:]]: a negative start counts from the end, and a start beyond
    either end is clipped. *)
Definition slice_from {A : Type} (l : list A) (start : Z) : list A :=
  if start <? 0
  then drop (Z.to_nat (Z.max 0 (Z.of_nat (length l) + start))) l
  else drop (Z.to_nat start) l.

Section Parser.
(** [json.loads] ([inr]: the line does not parse), and [str.strip], which
    removes the white space of Unicode at both ends. *)
Variable json_loads : string → json + string.
Variable str_strip : string → string.

Definition parse_line (line : string) : log_entry :=
  match json_loads line with
  | inl doc => parsed_line doc
  | inr _ => raw_line (str_strip line)
  end.

(** [recent_logs(limit)] on the lines of the log file, [None] when the file
    does not exist. *)
Definition recent_logs (file : option (list string)) (limit : Z) : response :=
  match file with
  | None => mkResponse [] (Some "No logs found") None
  | Some lines =>
      let recent_lines := slice_from lines (- limit) in
      mkResponse (map parse_line recent_lines) None (Some (Z.of_nat (length lines)))
  end.
End Parser.

End Logs.

(** ** More concrete values used in examples *)

Module Demo.

(** A report that claims 99 passed tests out of 5. *)
Definition inflated_json_loads (doc : string) : json + string :=
  inl (JObj [("passed", JNum 99); ("total", JNum 5); ("test_results", JArr [])]).

(** A virtual machine that prints its report and exits with code 1. *)
Definition failing_java (w : JavaExecutor.wrapper) : Subprocess.child :=
  Subprocess.Exits 100000 1 "report" "".

End Demo.


(** * The client (frontend/src/App.jsx)

    Instants of the client are those of [Date.now()]: integers, in
    milliseconds. *)

(** ** The [debounce] utility *)

Module Debounce.

Section Debounce.
Context {A : Type}.

(** The timer [timeoutId] names, as long as it has neither run nor been
    cleared: the instant it is due and the arguments its callback passes to
    [func]. *)
Definition timer : Type := option (Z * A).

(** What happens to a debounced function: it is called at an instant with
    arguments, or the event loop runs the timers that are due at an
    instant.  A timer is never run before it is due; how long after is up to
    the event loop, that is, to where the [Tick]s stand in the sequence. *)
Inductive event : Type :=
| Call (t : Z) (args : A)
| Tick (t : Z).

Definition instant (e : event) : Z :=
  match e with
  | Call t _ => t
  | Tick t => t
  end.

(** [setTimeout] treats a negative delay as zero. *)
Definition due_at (delay t : Z) : Z := t + Z.max 0 delay.

(** One event of the function [debounce(func, delay)] returns: the timer left
    pending, and the invocations of [func] it causes, each with its instant and
    arguments.  A call clears the pending timer, run or not, and sets a new
    one. *)
Definition step (delay : Z) (pending : timer) (e : event) : timer * list (Z * A) :=
  match e with
  | Call t args => (Some (due_at delay t, args), [])
  | Tick t =>
      match pending with
      | Some (due, args) =>
          if due <=? t then (None, [(t, args)]) else (pending, [])
      | None => (None, [])
      end
  end.

Fixpoint run (delay : Z) (pending : timer) (events : list event)
    : timer * list (Z * A) :=
  match events with
  | [] => (pending, [])
  | e :: rest =>
      let '(p1, invoked1) := step delay pending e in
      let '(p2, invoked2) := run delay p1 rest in
      (p2, invoked1 ++ invoked2)
  end.

(** The calls of a sequence of events, in order. *)
Definition calls (events : list event) : list (Z * A) :=
  omap (fun e => match e with Call t args => Some (t, args) | Tick _ => None end) events.

(** The instants of the events do not go back. *)
Definition in_order (events : list event) : Prop :=
  Sorted Z.le (instant <$> events).

(** A burst of calls: each call comes less than [delay] after the call before
    it. *)
Definition burst (delay : Z) (cs : list (Z * A)) : Prop :=
  Sorted (fun c1 c2 => c2.1 < c1.1 + delay) cs.

End Debounce.

Arguments timer : clear implicits.
Arguments event : clear implicits.

End Debounce.

(** ** The component [App] *)

Module App.

(** A JavaScript value that arrives with an event or sits in the state:
    [None] is [undefined], [Some doc] is the value the document [doc]
    stands for ([Some JNull] is [null]). *)
Definition value : Type := option json.

(** The truth value of a condition on a value. *)
Definition truthy (v : value) : bool :=
  match v with
  | None | Some JNull => false
  | Some (JBool b) => b
  | Some (JNum n) => negb (n =? 0)
  | Some (JStr s) => negb (bool_decide (s = ""))
  | Some (JArr _) | Some (JObj _) => true
  end.

(** [v.key], for the keys the component reads (none of them is a property of
    an array, a string, a number or a boolean): [None] when the access throws
    a [TypeError] because [v] is [null] or [undefined]. *)
Definition prop (v : value) (key : string) : option value :=
  match v with
  | None | Some JNull => None
  | Some (JObj fields) =>
      Some (match list_find (fun kv => kv.1 = key) fields with
            | Some (_, (_, x)) => Some x
            | None => None
            end)
  | Some _ => Some None
  end.

(** [v === userId], where [userId] is [null] or a string. *)
Definition is_identity (v : value) (userId : option string) : bool :=
  match v, userId with
  | Some JNull, None => true
  | Some (JStr s), Some u => bool_decide (s = u)
  | _, _ => false
  end.

(** [s.trim()], for text in ASCII: the white space removed at both ends is
    the characters 9 to 13 and the space. *)
Fixpoint trim_start (s : string) : string :=
  match s with
  | String c rest => if Ascii.is_space c then trim_start rest else s
  | EmptyString => EmptyString
  end.

Definition trim (s : string) : string :=
  String.rev (trim_start (String.rev (trim_start s))).

(** The object [setBattleResult] stores. *)
Record result : Type := mkBattleResult {
  winner : value;
  winner_id : value;
  loser : value;
  message : value
}.

(** The state variables of the component.  The notification list, the typing
    speed and the list of challenges fetched over HTTP are left out: the
    component writes them, and nothing below reads them. *)
Record app : Type := mkApp {
  userId : option string;
  username : string;
  isLoggedIn : bool;
  isRegistered : bool;
  inQueue : bool;
  queuePosition : value;
  inBattle : bool;
  roomId : value;
  challenge : value;
  selectedChallenge : value;
  userCode : string;
  opponentCode : value;
  userTestsPassed : value;
  opponentTestsPassed : value;
  totalTests : value;
  battleResult : option result;
  connectionStatus : string;
  opponent : value
}.

(** The state of the first render. *)
Definition initial : app :=
  mkApp None "" false false false (Some JNull) false (Some JNull) (Some JNull)
    (Some (JStr "palindrome")) "" (Some (JStr "")) (Some (JNum 0)) (Some (JNum 0))
    (Some (JNum 0)) None "disconnected" (Some JNull).


Definition setUserId (v : option string) (a : app) : app :=
  mkApp v (username a) (isLoggedIn a) (isRegistered a) (inQueue a) (queuePosition a)
    (inBattle a) (roomId a) (challenge a) (selectedChallenge a) (userCode a)
    (opponentCode a) (userTestsPassed a) (opponentTestsPassed a) (totalTests a)
    (battleResult a) (connectionStatus a) (opponent a).

Definition setUsername (v : string) (a : app) : app :=
  mkApp (userId a) v (isLoggedIn a) (isRegistered a) (inQueue a) (queuePosition a)
    (inBattle a) (roomId a) (challenge a) (selectedChallenge a) (userCode a)
    (opponentCode a) (userTestsPassed a) (opponentTestsPassed a) (totalTests a)
    (battleResult a) (connectionStatus a) (opponent a).

Definition setIsLoggedIn (v : bool) (a : app) : app :=
  mkApp (userId a) (username a) v (isRegistered a) (inQueue a) (queuePosition a)
    (inBattle a) (roomId a) (challenge a) (selectedChallenge a) (userCode a)
    (opponentCode a) (userTestsPassed a) (opponentTestsPassed a) (totalTests a)
    (battleResult a) (connectionStatus a) (opponent a).

Definition setIsRegistered (v : bool) (a : app) : app :=
  mkApp (userId a) (username a) (isLoggedIn a) v (inQueue a) (queuePosition a)
    (inBattle a) (roomId a) (challenge a) (selectedChallenge a) (userCode a)
    (opponentCode a) (userTestsPassed a) (opponentTestsPassed a) (totalTests a)
    (battleResult a) (connectionStatus a) (opponent a).

Definition setInQueue (v : bool) (a : app) : app :=
  mkApp (userId a) (username a) (isLoggedIn a) (isRegistered a) v (queuePosition a)
    (inBattle a) (roomId a) (challenge a) (selectedChallenge a) (userCode a)
    (opponentCode a) (userTestsPassed a) (opponentTestsPassed a) (totalTests a)
    (battleResult a) (connectionStatus a) (opponent a).

Definition setQueuePosition (v : value) (a : app) : app :=
  mkApp (userId a) (username a) (isLoggedIn a) (isRegistered a) (inQueue a) v
    (inBattle a) (roomId a) (challenge a) (selectedChallenge a) (userCode a)
    (opponentCode a) (userTestsPassed a) (opponentTestsPassed a) (totalTests a)
    (battleResult a) (connectionStatus a) (opponent a).

Definition setInBattle (v : bool) (a : app) : app :=
  mkApp (userId a) (username a) (isLoggedIn a) (isRegistered a) (inQueue a)
    (queuePosition a) v (roomId a) (challenge a) (selectedChallenge a) (userCode a)
    (opponentCode a) (userTestsPassed a) (opponentTestsPassed a) (totalTests a)
    (battleResult a) (connectionStatus a) (opponent a).

Definition setRoomId (v : value) (a : app) : app :=
  mkApp (userId a) (username a) (isLoggedIn a) (isRegistered a) (inQueue a)
    (queuePosition a) (inBattle a) v (challenge a) (selectedChallenge a) (userCode
    a) (opponentCode a) (userTestsPassed a) (opponentTestsPassed a) (totalTests a)
    (battleResult a) (connectionStatus a) (opponent a).

Definition setChallenge (v : value) (a : app) : app :=
  mkApp (userId a) (username a) (isLoggedIn a) (isRegistered a) (inQueue a)
    (queuePosition a) (inBattle a) (roomId a) v (selectedChallenge a) (userCode a)
    (opponentCode a) (userTestsPassed a) (opponentTestsPassed a) (totalTests a)
    (battleResult a) (connectionStatus a) (opponent a).

Definition setSelectedChallenge (v : value) (a : app) : app :=
  mkApp (userId a) (username a) (isLoggedIn a) (isRegistered a) (inQueue a)
    (queuePosition a) (inBattle a) (roomId a) (challenge a) v (userCode a)
    (opponentCode a) (userTestsPassed a) (opponentTestsPassed a) (totalTests a)
    (battleResult a) (connectionStatus a) (opponent a).

Definition setUserCode (v : string) (a : app) : app :=
  mkApp (userId a) (username a) (isLoggedIn a) (isRegistered a) (inQueue a)
    (queuePosition a) (inBattle a) (roomId a) (challenge a) (selectedChallenge a) v
    (opponentCode a) (userTestsPassed a) (opponentTestsPassed a) (totalTests a)
    (battleResult a) (connectionStatus a) (opponent a).

Definition setOpponentCode (v : value) (a : app) : app :=
  mkApp (userId a) (username a) (isLoggedIn a) (isRegistered a) (inQueue a)
    (queuePosition a) (inBattle a) (roomId a) (challenge a) (selectedChallenge a)
    (userCode a) v (userTestsPassed a) (opponentTestsPassed a) (totalTests a)
    (battleResult a) (connectionStatus a) (opponent a).

Definition setUserTestsPassed (v : value) (a : app) : app :=
  mkApp (userId a) (username a) (isLoggedIn a) (isRegistered a) (inQueue a)
    (queuePosition a) (inBattle a) (roomId a) (challenge a) (selectedChallenge a)
    (userCode a) (opponentCode a) v (opponentTestsPassed a) (totalTests a)
    (battleResult a) (connectionStatus a) (opponent a).

Definition setOpponentTestsPassed (v : value) (a : app) : app :=
  mkApp (userId a) (username a) (isLoggedIn a) (isRegistered a) (inQueue a)
    (queuePosition a) (inBattle a) (roomId a) (challenge a) (selectedChallenge a)
    (userCode a) (opponentCode a) (userTestsPassed a) v (totalTests a) (battleResult
    a) (connectionStatus a) (opponent a).

Definition setTotalTests (v : value) (a : app) : app :=
  mkApp (userId a) (username a) (isLoggedIn a) (isRegistered a) (inQueue a)
    (queuePosition a) (inBattle a) (roomId a) (challenge a) (selectedChallenge a)
    (userCode a) (opponentCode a) (userTestsPassed a) (opponentTestsPassed a) v
    (battleResult a) (connectionStatus a) (opponent a).

Definition setBattleResult (v : option result) (a : app) : app :=
  mkApp (userId a) (username a) (isLoggedIn a) (isRegistered a) (inQueue a)
    (queuePosition a) (inBattle a) (roomId a) (challenge a) (selectedChallenge a)
    (userCode a) (opponentCode a) (userTestsPassed a) (opponentTestsPassed a)
    (totalTests a) v (connectionStatus a) (opponent a).

Definition setConnectionStatus (v : string) (a : app) : app :=
  mkApp (userId a) (username a) (isLoggedIn a) (isRegistered a) (inQueue a)
    (queuePosition a) (inBattle a) (roomId a) (challenge a) (selectedChallenge a)
    (userCode a) (opponentCode a) (userTestsPassed a) (opponentTestsPassed a)
    (totalTests a) (battleResult a) v (opponent a).

Definition setOpponent (v : value) (a : app) : app :=
  mkApp (userId a) (username a) (isLoggedIn a) (isRegistered a) (inQueue a)
    (queuePosition a) (inBattle a) (roomId a) (challenge a) (selectedChallenge a)
    (userCode a) (opponentCode a) (userTestsPassed a) (opponentTestsPassed a)
    (totalTests a) (battleResult a) (connectionStatus a) v.

(** What the client sends to the server. *)
Inductive emission : Type :=
| emit_register_user (user_id username : string) (elo_rating : Z)
| emit_join_queue (user_id : option string) (username : string) (elo_rating : Z)
    (challenge_id : value)
| emit_leave_queue (user_id : option string)
| emit_submit_code (user_id : option string) (room_id : value) (code : string)
| emit_sync_code (user_id : option string) (room_id : value) (code : string).

(** What the server sends to the client, with the payload [data]. *)
Inductive incoming : Type :=
| on_connect
| on_disconnect
| on_user_registered (data : value)
| on_error (data : value)
| on_queue_joined (data : value)
| on_queue_left (data : value)
| on_match_found (data : value)
| on_code_submission (data : value)
| on_opponent_code_update (data : value)
| on_battle_complete (data : value).

(** The socket listeners.  They are closures made by the render [render], and
    read its state variables; their state updates apply to the current state
    [a].  A listener that throws stops there: the updates it has made stay. *)
Definition listener (render : app) (m : incoming) (a : app) : app :=
  match m with
  | on_connect => setConnectionStatus "connected" a
  | on_disconnect => setConnectionStatus "disconnected" a
  | on_user_registered _ => setIsRegistered true a
  | on_error _ => a
  | on_queue_joined data =>
      let a1 := setInQueue true a in
      match prop data "queue_position" with
      | Some position => setQueuePosition position a1
      | None => a1
      end
  | on_queue_left _ => setQueuePosition (Some JNull) (setInQueue false a)
  | on_match_found data =>
      match prop data "room_id", prop data "challenge", prop data "opponent" with
      | Some room, Some chal, Some opp =>
          let a1 :=
            setOpponentTestsPassed (Some (JNum 0))
              (setUserTestsPassed (Some (JNum 0))
                 (setOpponentCode (Some (JStr ""))
                    (setUserCode ""
                       (setInBattle true
                          (setInQueue false
                             (setOpponent opp
                                (setChallenge chal (setRoomId room a)))))))) in
          match prop chal "test_count" with
          | Some count => setBattleResult None (setTotalTests count a1)
          | None => a1
          end
      | _, _, _ => a
      end
  | on_code_submission data =>
      match prop data "user_id", prop data "passed_tests" with
      | Some uid, Some passed =>
          if is_identity uid (userId render)
          then setUserTestsPassed passed a
          else setOpponentTestsPassed passed a
      | _, _ => a
      end
  | on_opponent_code_update data =>
      match prop data "code" with
      | Some code => setOpponentCode code a
      | None => a
      end
  | on_battle_complete data =>
      match prop data "winner_username", prop data "winner_id",
            prop data "loser_username", prop data "message" with
      | Some w, Some wid, Some l, Some msg =>
          setInBattle false (setBattleResult (Some (mkBattleResult w wid l msg)) a)
      | _, _, _, _ => a
      end
  end.

(** The function handed to [debounce]: a closure made by the render [render].
    The socket exists from the first effect on. *)
Definition sync_callback (render : app) (code : option string) : list emission :=
  if truthy (roomId render)
  then [emit_sync_code (userId render) (roomId render) (default "" code)]
  else [].

(** What the user does: typing a name, picking a challenge, and the handlers
    of the buttons and of the editor, with the instant where the handler reads
    the clock.  The handlers are closures of the current render. *)
Inductive action : Type :=
| type_username (text : string)
| select_challenge (id : value)
| handleRegister (now : Z)
| handleJoinQueue
| handleLeaveQueue
| handleSubmitCode
| handleCodeChange (now : Z) (text : option string)
| handleLogout.

(** The component after its first effect: the state shown, and the timer of
    [debouncedSyncCode]. *)
Record client : Type := mkClient {
  shown : app;
  timeoutId : Debounce.timer (option string)
}.

Definition mounted : client := mkClient initial None.

(** [!userId]. *)
Definition no_identity (userId : option string) : bool :=
  match userId with
  | None => true
  | Some u => bool_decide (u = "")
  end.

(** The handlers other than [handleCodeChange]: the new state and what is
    sent. *)
Definition handle (act : action) (a : app) : app * list emission :=
  match act with
  | type_username text => (setUsername text a, [])
  | select_challenge id => (setSelectedChallenge id a, [])
  | handleRegister now =>
      if bool_decide (trim (username a) = "") then (a, [])
      else
        let newUserId := "user_" +:+ pretty now in
        (setIsLoggedIn true (setUserId (Some newUserId) a),
         [emit_register_user newUserId (trim (username a)) 1000])
  | handleJoinQueue =>
      if no_identity (userId a) then (a, [])
      else if negb (isRegistered a) then (a, [])
      else (a, [emit_join_queue (userId a) (username a) 1000 (selectedChallenge a)])
  | handleLeaveQueue => (a, [emit_leave_queue (userId a)])
  | handleSubmitCode =>
      if negb (truthy (roomId a)) || bool_decide (trim (userCode a) = "")
      then (a, [])
      else (a, [emit_submit_code (userId a) (roomId a) (userCode a)])
  | handleCodeChange _ text => (setUserCode (default "" text) a, [])
  | handleLogout =>
      (setIsRegistered false (setUsername "" (setUserId None (setIsLoggedIn false a))),
       if inQueue a then [emit_leave_queue (userId a)] else [])
  end.

(** An event of the client: a message of the server, something the user does,
    or the event loop running the timers that are due. *)
Inductive event : Type :=
| received (m : incoming)
| did (act : action)
| timers_run (now : Z).

(** The event seen by [debouncedSyncCode]. *)
Definition debounce_event (e : event) : option (Debounce.event (option string)) :=
  match e with
  | did (handleCodeChange now text) => Some (Debounce.Call now text)
  | timers_run now => Some (Debounce.Tick now)
  | _ => None
  end.

(** One event.  The listeners are those the effect of the first render
    installed (its dependency list is empty), and [debouncedSyncCode] is the
    function [useRef] was given in the first render, which it keeps: both are
    closures of the first render. *)
Definition step (e : event) (c : client) : client * list emission :=
  let '(a, sent) :=
    match e with
    | received m => (listener initial m (shown c), [])
    | did act => handle act (shown c)
    | timers_run _ => (shown c, [])
    end in
  match debounce_event e with
  | Some d =>
      let '(pending, invoked) := Debounce.step 500 (timeoutId c) d in
      (mkClient a pending, sent ++ flat_map (fun i => sync_callback initial i.2) invoked)
  | None => (mkClient a (timeoutId c), sent)
  end.

Fixpoint run (events : list event) (c : client) : client * list emission :=
  match events with
  | [] => (c, [])
  | e :: rest =>
      let '(c1, sent1) := step e c in
      let '(c2, sent2) := run rest c1 in
      (c2, sent1 ++ sent2)
  end.

Definition is_sync (e : emission) : bool :=
  match e with
  | emit_sync_code _ _ _ => true
  | _ => false
  end.

(** A [code_submission] that is received names its author: its [user_id] is
    not [null]. *)
Definition identified (e : event) : Prop :=
  match e with
  | received (on_code_submission data) => prop data "user_id" ≠ Some (Some JNull)
  | _ => True
  end.

End App.

(** ** The editor handler of the performance guide
    (INTERVIEW_DEFENSE_GUIDE.md, optimization 3) *)

Module GuideEditor.

(** What the timer callback closes over: the text, and the [roomId] and
    [userId] of the render whose handler set the timer. *)
Record closure : Type := mkClosure {
  text : option string;
  roomId : App.value;
  userId : option string
}.

(** The two references of the component: the pending timer of [debounceRef]
    and the text of [lastSyncRef] ([None] is [undefined]). *)
Record refs : Type := mkRefs {
  debounceRef : option (Z * closure);
  lastSyncRef : option string
}.

Definition initial : refs := mkRefs None (Some "").

(** The [sync_code] event the callback emits. *)
Record sync : Type := mkSyncCode {
  user_id : option string;
  room_id : App.value;
  code : string;
  timestamp : Z
}.

(** [handleCodeChange(value)] at an instant, in a render with the given
    [roomId] and [userId]; the event loop running the timers that are due,
    with [socketRef.current] set or not; or the cleanup of the effect, when
    the component unmounts. *)
Inductive event : Type :=
| Change (now : Z) (c : closure)
| Tick (now : Z) (socket : bool)
| Unmount (now : Z).

Definition instant (e : event) : Z :=
  match e with
  | Change now _ => now
  | Tick now _ => now
  | Unmount now => now
  end.

Definition step (e : event) (r : refs) : refs * list sync :=
  match e with
  | Change now c =>
      if bool_decide (text c = lastSyncRef r) then (r, [])
      else (mkRefs (Some (now + 300, c)) (lastSyncRef r), [])
  | Tick now socket =>
      match debounceRef r with
      | Some (due, c) =>
          if due <=? now then
            if App.truthy (roomId c) && socket && negb (bool_decide (text c = lastSyncRef r))
            then (mkRefs None (text c),
                  [mkSyncCode (userId c) (roomId c) (default "" (text c)) now])
            else (mkRefs None (lastSyncRef r), [])
          else (r, [])
      | None => (r, [])
      end
  | Unmount _ => (mkRefs None (lastSyncRef r), [])
  end.

Fixpoint run (events : list event) (r : refs) : refs * list sync :=
  match events with
  | [] => (r, [])
  | e :: rest =>
      let '(r1, sent1) := step e r in
      let '(r2, sent2) := run rest r1 in
      (r2, sent1 ++ sent2)
  end.

(** The instants of the events do not go back. *)
Definition in_order (events : list event) : Prop :=
  Sorted Z.le (instant <$> events).

(** Where an event that is sent comes from: a change of the text, among
    [events] or the one that set the timer [pending], made at least 300 ms
    before in a render that had a room; the event carries the identity, the
    room and the text of that change. *)
Definition origin (events : list event) (pending : option (Z * closure)) (s : sync)
    : Prop :=
  ∃ now c, (Change now c ∈ events ∨ pending = Some (now + 300, c)) ∧
    now + 300 ≤ timestamp s ∧ App.truthy (roomId c) = true ∧
    user_id s = userId c ∧ room_id s = roomId c ∧ code s = default "" (text c).

End GuideEditor.

(** * Session recovery (SCALE_TO_5000.md, part 2) *)

Module Persistence.

(** A row of the table [battle_sessions], without its primary key [room_id]
    (the key of the table below) and without the two timestamps, which the
    handlers do not read.  A column that may hold NULL is an [option]. *)
Record BattleSession : Type := mkSession {
  player1_id : option string;
  player2_id : option string;
  challenge_id : option string;
  player1_code : string;
  player2_code : string;
  player1_tests : Z;
  player2_tests : Z;
  total_tests : Z;
  status : option string;
  winner_id : option string
}.

(** The table, by primary key. *)
Abbreviation table := (gmap string BattleSession).

(** [s.split(sep)] for a separator that is not empty: the pieces between the
    occurrences of [sep], taken from the left without overlap.  [split_go]
    gives the first piece and the others; [skip] counts the characters of an
    occurrence still to drop. *)
Fixpoint split_go (sep : string) (skip : nat) (s : string) : string * list string :=
  match s with
  | EmptyString => (EmptyString, [])
  | String c rest =>
      match skip with
      | S k => split_go sep k rest
      | O =>
          if String.prefix sep s
          then let '(piece, pieces) := split_go sep (String.length sep - 1) rest in
               (EmptyString, piece :: pieces)
          else let '(piece, pieces) := split_go sep O rest in
               (String c piece, pieces)
      end
  end.

Definition split (sep s : string) : list string :=
  let '(piece, pieces) := split_go sep O s in piece :: pieces.

(** The [user_id] that [connect] reads in the query string:
    [query_params.split('user_id=')[1].split('&')[0]] when ['user_id='] is in
    the query string, [None] otherwise. *)
Definition user_id_of_query (query_params : string) : option string :=
  if JavaExecutor.contains "user_id=" query_params
  then
    let value := default "" (split "user_id=" query_params !! 1%nat) in
    Some (default "" (split "&" value !! 0%nat))
  else None.

(** What the two handlers send. *)
Inductive sent : Type :=
| session_recovered (room_id player1_code player2_code : string)
    (player1_tests player2_tests total_tests : Z) (to : string)
| connection_response (data : string) (to : string)
| error_event (message : string) (to : string)
| code_submission (user_id : option string) (passed_tests total_tests : Z)
    (to : string).

(** The filter of [connect]: the user is one of the two players, and the
    battle is in progress. *)
Definition active_for (user_id : string) (b : BattleSession) : bool :=
  (bool_decide (player1_id b = Some user_id)
   || bool_decide (player2_id b = Some user_id))
  && bool_decide (status b = Some "in_progress").

(** [db.query(BattleSession).filter(...).first()]: the first row the database
    returns; the order of the rows is that of [map_to_list]. *)
Definition first_active (user_id : string) (db : table)
    : option (string * BattleSession) :=
  snd <$> list_find (fun kv => active_for user_id kv.2 = true) (map_to_list db).

(** [connect(sid, environ)] with [environ.get('QUERY_STRING', '')] equal to
    [query_params].  The database is [Some] of the table when it answers the
    query, and [None] when the session or the query raises.  [connect] has a
    [try] with a [finally] and no [except]: what the query raises leaves the
    handler, and the greeting is not sent.  The result is what was sent, or
    [None] when the handler raised, having sent nothing. *)
Definition connect (sid query_params : string) (db : option table)
    : option (list sent) :=
  let greeting := [connection_response "Connected to server" sid] in
  match user_id_of_query query_params with
  | Some user_id =>
      if bool_decide (user_id = "") then Some greeting
      else
        match db with
        | None => None
        | Some rows =>
            match first_active user_id rows with
            | Some (room_id, b) =>
                Some (session_recovered room_id (player1_code b) (player2_code b)
                        (player1_tests b) (player2_tests b) (total_tests b) sid
                      :: greeting)
            | None => Some greeting
            end
        end
  | None => Some greeting
  end.

(** The assignments [submit_code] makes to the row of the battle. *)
Definition record_submission (user_id : option string) (code : string)
    (passed total : Z) (battle : BattleSession) : BattleSession :=
  let by_player1 := bool_decide (user_id = player1_id battle) in
  let won := bool_decide (passed = total) in
  mkSession (player1_id battle) (player2_id battle) (challenge_id battle)
    (if by_player1 then code else player1_code battle)
    (if by_player1 then player2_code battle else code)
    (if by_player1 then passed else player1_tests battle)
    (if by_player1 then player2_tests battle else passed)
    total
    (if won then Some "completed" else status battle)
    (if won then user_id else winner_id battle).

(** [submit_code(sid, data)] from the point where the code has been run, with
    [execution_result.passed_tests] and [execution_result.total_tests] equal
    to [passed] and [total]: the row is written, and the result is sent to
    the room.  A [room_id] that is missing in [data] finds no row. *)
Definition persist_submission (sid : string) (user_id room_id : option string)
    (code : string) (passed total : Z) (db : table) : table * list sent :=
  match room_id ≫= (fun rid => (rid,.) <$> db !! rid) with
  | None => (db, [error_event "Battle not found" sid])
  | Some (rid, battle) =>
      (<[rid := record_submission user_id code passed total battle]> db,
       [code_submission user_id passed total rid])
  end.

End Persistence.
(** * Properties *)

(** ** The sorted set *)

Module RedisFacts.

Import Redis.

#[global] Instance zle_total : Total zle.
Proof.
  intros [m1 s1] [m2 s2]. unfold zle. simpl.
  destruct (Z.lt_trichotomy s1 s2) as [H | [H | H]]; [by left; left | | by right; left].
  subst. destruct (total String.le m1 m2); [left | right]; by right.
Qed.

#[global] Instance zle_trans : Transitive zle.
Proof.
  intros [m1 s1] [m2 s2] [m3 s3]. unfold zle. simpl.
  intros [H12 | [-> H12]] [H23 | [-> H23]]; try (left; lia).
  right. split; [done |]. by etrans.
Qed.


Lemma zrange_all_scored (q : gmap string Z) : zrange_all q = (scored q).*1.
Proof. reflexivity. Qed.

Lemma elem_of_scored (q : gmap string Z) (m : string) (s : Z) :
  (m, s) ∈ scored q ↔ q !! m = Some s.
Proof.
  unfold scored. rewrite merge_sort_Permutation. apply elem_of_map_to_list.
Qed.

Lemma scored_sorted (q : gmap string Z) : StronglySorted zle (scored q).
Proof. apply StronglySorted_merge_sort; apply _. Qed.

Lemma elem_of_zrange_all (q : gmap string Z) (m : string) :
  m ∈ zrange_all q ↔ is_Some (q !! m).
Proof.
  rewrite zrange_all_scored, list_elem_of_fmap. split.
  - intros [[m' s] [-> H]]. apply elem_of_scored in H. by exists s.
  - intros [s H]. exists (m, s). split; [done |]. by apply elem_of_scored.
Qed.





Lemma get_setex_eq {V : Type} (now : Z) (k : string) (v : V) (ex : Z)
    (m : gmap string (entry V)) :
  0 < ex → get now (setex now k v ex m) k = Some v.
Proof.
  intros Hex. unfold get, setex. rewrite lookup_insert_eq. simpl.
  assert ((now <? now + ex * second) = true) as ->; [| done].
  apply Z.ltb_lt. unfold second. lia.
Qed.

End RedisFacts.

(** ** The matchmaking queue *)

Module QueueFacts.

Import Redis Matchmaking.

Lemma get_queue_size_zadd_present (uid : string) (score : Z) (r : store) :
  is_Some (queue r !! uid) →
  get_queue_size (set_queue (zadd uid score (queue r)) r) = get_queue_size r.
Proof.
  intros [old Hold]. unfold get_queue_size, zcard, zadd. simpl. f_equal.
  rewrite <- (insert_delete_id (queue r) uid old) at 2 by done.
  rewrite <- insert_delete_eq.
  rewrite !map_size_insert_None by apply lookup_delete_eq. done.
Qed.

(** C1, as the specification states it, fails: alice is queued since second 1
    and joins again at second 5; the call reports success and moves her
    insertion-order key from second 1 to second 5. *)
Lemma add_to_queue_again_not_rejected :
  let r := Scenario.alice_queued in
  let '(r', res) := add_to_queue 5000000 "alice" "Alice" 1000 "sidA" r in
  zscore (queue r) "alice" = Some 1000000 ∧
  ¬ (get_queue_size r' = get_queue_size r ∧
     zscore (queue r') "alice" = zscore (queue r) "alice" ∧
     add_success res = false).
Proof.
  vm_compute. split; [reflexivity |]. intros (_ & _ & H). discriminate H.
Qed.

(** C1, amended: for every queue state and every identity already in the
    queue, [add_to_queue] with that identity adds no second entry (the queue
    size is unchanged and every other entry keeps its key), but it is not
    rejected: it reports success, replaces the stored player record, and
    resets the identity's insertion-order key to the current instant. *)
Theorem add_to_queue_again (now : Z) (uid uname : string) (elo : Z) (sid : string)
    (r : store) :
  online r = true →
  is_Some (zscore (queue r) uid) →
  let '(r', res) := add_to_queue now uid uname elo sid r in
  get_queue_size r' = get_queue_size r ∧
  (∀ other, other ≠ uid → zscore (queue r') other = zscore (queue r) other) ∧
  res = AddSuccess uid ∧
  zscore (queue r') uid = Some now ∧
  Redis.get now (players r') uid = Some (mkPlayer uid uname elo now sid).
Proof.
  intros Hup Hin. unfold add_to_queue. rewrite Hup. simpl.
  split; [| split; [| split; [| split]]].
  - by apply (get_queue_size_zadd_present uid now (set_players _ r)).
  - intros other Hne. unfold zscore, zadd. by rewrite lookup_insert_ne.
  - reflexivity.
  - unfold zscore, zadd. by rewrite lookup_insert_eq.
  - unfold Redis.get, setex. rewrite lookup_insert_eq. simpl.
    assert ((now <? now + TTL * second) = true) as ->; [| done].
    apply Z.ltb_lt. unfold TTL, second. lia.
Qed.

Lemma add_to_queue_again_witness :
  let '(r', res) :=
    add_to_queue 5000000 "alice" "Alice" 1000 "sidA" Scenario.alice_queued in
  get_queue_size r' = get_queue_size Scenario.alice_queued ∧
  (∀ other, other ≠ "alice" →
     zscore (queue r') other = zscore (queue Scenario.alice_queued) other) ∧
  res = AddSuccess "alice" ∧
  zscore (queue r') "alice" = Some 5000000 ∧
  Redis.get 5000000 (players r') "alice"
    = Some (mkPlayer "alice" "Alice" 1000 5000000 "sidA").
Proof.
  apply (add_to_queue_again 5000000 "alice" "Alice" 1000 "sidA" Scenario.alice_queued).
  - reflexivity.
  - vm_compute. eauto.
Defined.

(** *** The scan of [find_best_match] *)

Section Scan.
Variables (now : Z) (r : store) (pid : string) (elo tol : Z).

Let step := scan_step now r pid elo tol.
Let diff := QueueSpec.candidate_diff now r pid elo.

Lemma scan_step_diff (acc : scan) (c : string) :
  step acc c =
    match diff c with
    | None => acc
    | Some d => if below d acc.2 && (d <=? tol) then (Some c, Some d) else acc
    end.
Proof.
  unfold step, diff, scan_step, QueueSpec.candidate_diff.
  destruct (decide (c = pid)); [done |].
  by destruct (Redis.get now (players r) c).
Qed.

Let scan_result := QueueSpec.scan_result now r pid elo tol.

Lemma scan_spec (l : list string) : scan_result l (foldl step (None, None) l).
Proof.
  unfold scan_result, QueueSpec.scan_result. fold diff.
  induction l as [| x l IH] using rev_ind.
  - simpl. intros c d Hc. by apply elem_of_nil in Hc.
  - rewrite foldl_app. simpl. rewrite scan_step_diff.
    destruct (foldl step (None, None) l) as [[b |] [d |]]; simpl in *; try done.
    + (* a best match so far *)
      destruct IH as (l1 & l2 & -> & Hb & Hd & Hbefore & Hafter).
      destruct (diff x) as [dx |] eqn:Hx.
      * destruct (dx <? d) eqn:Hlt; simpl.
        -- apply Z.ltb_lt in Hlt.
           assert ((dx <=? tol) = true) as -> by (apply Z.leb_le; lia).
           exists (l1 ++ b :: l2), []. split; [done |]. split; [done |].
           split; [lia |]. split.
           ++ intros c' d' Hc' Hd'. apply elem_of_app in Hc' as [Hc' | Hc'].
              ** specialize (Hbefore _ _ Hc' Hd'). lia.
              ** apply elem_of_cons in Hc' as [-> | Hc'].
                 --- assert (d' = d) by congruence. lia.
                 --- specialize (Hafter _ _ Hc' Hd'). lia.
           ++ intros c' d' Hc'. by apply elem_of_nil in Hc'.
        -- apply Z.ltb_ge in Hlt.
           exists l1, (l2 ++ [x]). split; [by rewrite <- app_assoc |].
           split; [done |]. split; [done |]. split; [done |].
           intros c' d' Hc' Hd'. apply elem_of_app in Hc' as [Hc' | Hc'].
           ++ by eapply Hafter.
           ++ apply list_elem_of_singleton in Hc' as ->.
              assert (d' = dx) by congruence. lia.
      * exists l1, (l2 ++ [x]). split; [by rewrite <- app_assoc |].
        split; [done |]. split; [done |]. split; [done |].
        intros c' d' Hc' Hd'. apply elem_of_app in Hc' as [Hc' | Hc'].
        -- by eapply Hafter.
        -- apply list_elem_of_singleton in Hc' as ->. congruence.
    + (* nothing so far *)
      destruct (diff x) as [dx |] eqn:Hx.
      * destruct (dx <=? tol) eqn:Hle; simpl.
        -- apply Z.leb_le in Hle. exists l, []. split; [done |].
           split; [done |]. split; [done |]. split.
           ++ intros c' d' Hc' Hd'. specialize (IH _ _ Hc' Hd'). lia.
           ++ intros c' d' Hc'. by apply elem_of_nil in Hc'.
        -- apply Z.leb_gt in Hle. intros c d Hc Hd.
           apply elem_of_app in Hc as [Hc | Hc]; [by eapply IH |].
           apply list_elem_of_singleton in Hc as ->.
           assert (d = dx) by congruence. lia.
      * intros c d Hc Hd.
        apply elem_of_app in Hc as [Hc | Hc]; [by eapply IH |].
        apply list_elem_of_singleton in Hc as ->. congruence.
Qed.

End Scan.



(** [add_to_queue] keeps the queue ready, as long as the identity is not
    empty and the records already there are not about to expire. *)
Lemma add_to_queue_ready (now : Z) (uid uname : string) (elo : Z) (sid : string)
    (r : store) :
  uid ≠ "" → QueueSpec.queue_ready now r →
  QueueSpec.queue_ready now (add_to_queue now uid uname elo sid r).1.
Proof.
  intros Hne Hready m. unfold add_to_queue.
  destruct (online r); [| apply Hready]. simpl. unfold zadd.
  destruct (decide (m = uid)) as [-> | Hm].
  - intros _. split; [done |]. rewrite RedisFacts.get_setex_eq; [eauto |].
    unfold TTL. lia.
  - rewrite lookup_insert_ne by done. intros Hin.
    destruct (Hready m Hin) as [? Hrec]. split; [done |].
    unfold Redis.get, setex in *. by rewrite lookup_insert_ne.
Qed.




(** Scenario A.  alice (1000) and bob (1100) are queued: they are paired. *)
Example scenario_a_pair :
  ∃ r' room,
    attempt_matchmaking 4000000 "0123456789ab" "palindrome" Scenario.two_queued
      = (r', Some room) ∧
    user_id (player1 room) = "alice" ∧ user_id (player2 room) = "bob" ∧
    zrange_all (queue r') = [].
Proof. eexists _, _. vm_compute. repeat split. Qed.

(** Scenario A, carol (1500) in the queue with them: alice and bob are
    paired, carol stays. *)
Example scenario_a_third_stays :
  ∃ r' room,
    attempt_matchmaking 10000000 "0123456789ab" "palindrome" Scenario.three_queued
      = (r', Some room) ∧
    user_id (player1 room) = "alice" ∧ user_id (player2 room) = "bob" ∧
    zrange_all (queue r') = ["carol"].
Proof. eexists _, _. vm_compute. repeat split. Qed.

(** Scenario A, carol joining after the two have been paired: she is alone
    and matched with nobody.  Nor is she matched with either of them when
    only one of them is queued with her. *)
Example scenario_a_third_unmatched :
  let after := (attempt_matchmaking 4000000 "0123456789ab" "palindrome"
                  Scenario.two_queued).1 in
  let with_carol := (add_to_queue 9000000 "carol" "Carol" 1500 "sidC" after).1 in
  let alice_carol :=
    (add_to_queue 9000000 "carol" "Carol" 1500 "sidC" Scenario.alice_queued).1 in
  (attempt_matchmaking 10000000 "ba9876543210" "palindrome" with_carol).2 = None ∧
  (attempt_matchmaking 10000000 "ba9876543210" "palindrome" alice_carol).2 = None ∧
  zrange_all
    (queue (attempt_matchmaking 10000000 "ba9876543210" "palindrome" alice_carol).1)
    = ["alice"; "carol"].
Proof. vm_compute. repeat split. Qed.

End QueueFacts.

(** ** Battle rooms *)

Module RoomFacts.

Import Redis Matchmaking RoomSpec.

Lemma record_results_status (pid : string) (p t : Z) (b : BattleRoom) :
  status (record_results pid p t b) = if decide (p = t) then "completed" else status b.
Proof. unfold record_results. repeat case_decide; reflexivity. Qed.

Lemma record_results_winner (pid : string) (p t : Z) (b : BattleRoom) :
  winner_id (record_results pid p t b) = if decide (p = t) then Some pid else winner_id b.
Proof. unfold record_results. repeat case_decide; reflexivity. Qed.

Lemma record_results_total (pid : string) (p t : Z) (b : BattleRoom) :
  total_tests (record_results pid p t b) = t.
Proof. unfold record_results. repeat case_decide; reflexivity. Qed.

Lemma record_results_player1_tests (pid : string) (p t : Z) (b : BattleRoom) :
  player1_tests (record_results pid p t b)
    = if decide (pid = user_id (player1 b)) then p else player1_tests b.
Proof. unfold record_results. simpl. repeat case_decide; reflexivity. Qed.

Lemma record_results_player2_tests (pid : string) (p t : Z) (b : BattleRoom) :
  player2_tests (record_results pid p t b)
    = if decide (pid = user_id (player1 b)) then player2_tests b else p.
Proof. unfold record_results. simpl. repeat case_decide; reflexivity. Qed.

Lemma record_results_players (pid : string) (p t : Z) (b : BattleRoom) :
  player1 (record_results pid p t b) = player1 b ∧
  player2 (record_results pid p t b) = player2 b ∧
  room_id (record_results pid p t b) = room_id b ∧
  challenge_id (record_results pid p t b) = challenge_id b.
Proof. unfold record_results. repeat case_decide; done. Qed.

(** What [update_test_results] leaves in the store. *)
Lemma update_test_results_stored (now : Z) (rid pid : string) (p t : Z)
    (r : store) (b : BattleRoom) :
  online r = true → get_battle_room now r rid = Some b →
  update_test_results now rid pid p t r
    = (set_rooms (setex now rid (record_results pid p t b) TTL (rooms r)) r, true) ∧
  get_battle_room now (update_test_results now rid pid p t r).1 rid
    = Some (record_results pid p t b).
Proof.
  intros Hup Hb. unfold update_test_results. rewrite Hup, Hb. split; [done |].
  unfold get_battle_room. simpl. apply RedisFacts.get_setex_eq. unfold TTL. lia.
Qed.

(** The room [attempt_matchmaking] returns is a new room. *)
Lemma attempt_matchmaking_created (now : Z) (uuid12 cid : string) (r r' : store)
    (room : BattleRoom) :
  attempt_matchmaking now uuid12 cid r = (r', Some room) →
  ∃ p1 p2, room = new_battle now ("room_" +:+ uuid12) p1 p2 cid.
Proof.
  unfold attempt_matchmaking. intros H.
  repeat (match type of H with
          | context [if ?c then _ else _] => destruct c
          | context [match ?x with _ => _ end] => destruct x eqn:?
          end; try discriminate).
  injection H as _ <-. eauto.
Qed.

(** C5, as the specification states it, fails: the room created for alice and
    bob is in state in_progress from the start, with no submission received;
    no room is ever in a state pending. *)
Lemma created_room_is_not_pending :
  ∃ r' room,
    attempt_matchmaking 4000000 "0123456789ab" "palindrome" Scenario.two_queued
      = (r', Some room) ∧
    player1_tests room = 0 ∧ player2_tests room = 0 ∧ winner_id room = None ∧
    status room = "in_progress" ∧ status room ≠ "pending".
Proof. eexists _, _. vm_compute. repeat split. discriminate. Qed.

(** C5, amended: the status of every room follows in_progress → completed.
    A room is created in state in_progress, with no submissions, zero counts,
    empty code and a null winner; there is no state pending.  It is in state
    completed exactly when one of the submissions received had a passed count
    equal to its total, and the winner recorded is then the identity that
    made the latest such submission; until then it stays in_progress with a
    null winner. *)
Theorem room_lifecycle (b : BattleRoom) (subs : list submission) :
  history b subs →
  (subs = [] →
     status b = "in_progress" ∧ winner_id b = None ∧
     player1_tests b = 0 ∧ player2_tests b = 0 ∧
     player1_code b = "" ∧ player2_code b = "") ∧
  (status b = "in_progress" ∨ status b = "completed") ∧
  status b ≠ "pending" ∧
  (status b = "completed" ↔ Exists full_score subs) ∧
  winner_id b = submitter <$> last (filter full_score subs).
Proof.
  induction 1 as [now rid p1 p2 cid | b subs s Hb IH].
  - simpl. split; [done |]. split; [by left |]. split; [done |]. split; [| done].
    split; [done |]. intros H. by apply Exists_nil in H.
  - destruct IH as (_ & Hstatus & _ & Hcompleted & Hwinner).
    rewrite record_results_status, record_results_winner.
    rewrite filter_app, Exists_app, filter_cons, filter_nil.
    split; [intros H; by destruct subs |].
    destruct (decide (passed s = total s)) as [Hfull | Hnot].
    + rewrite (decide_True (P := full_score s)) by done.
      split; [by right |]. split; [done |]. split.
      * split; [| done]. intros _. right. by apply Exists_cons_hd.
      * by rewrite last_snoc.
    + rewrite (decide_False (P := full_score s)) by done. rewrite app_nil_r.
      split; [done |]. split; [by destruct Hstatus as [-> | ->] |]. split; [| done].
      rewrite Hcompleted. split; [by left |].
      intros [H | H]; [done |]. apply Exists_cons in H as [H | H]; [done |].
      by apply Exists_nil in H.
Qed.

Lemma room_lifecycle_witness :
  let b := record_results "bob" 5 5
             (record_results "alice" 3 5
                (new_battle 4000000 "room_0123456789ab"
                   (mkPlayer "alice" "Alice" 1000 1000000 "sidA")
                   (mkPlayer "bob" "Bob" 1100 3000000 "sidB") "palindrome")) in
  let subs := [mkSubmission "alice" 3 5; mkSubmission "bob" 5 5] in
  (subs = [] →
     status b = "in_progress" ∧ winner_id b = None ∧
     player1_tests b = 0 ∧ player2_tests b = 0 ∧
     player1_code b = "" ∧ player2_code b = "") ∧
  (status b = "in_progress" ∨ status b = "completed") ∧
  status b ≠ "pending" ∧
  (status b = "completed" ↔ Exists full_score subs) ∧
  winner_id b = submitter <$> last (filter full_score subs).
Proof.
  apply room_lifecycle.
  apply (history_submission _ [mkSubmission "alice" 3 5] (mkSubmission "bob" 5 5)).
  apply (history_submission _ [] (mkSubmission "alice" 3 5)).
  apply history_created.
Defined.

End RoomFacts.

(** ** Submissions *)

Module SubmitFacts.

Import Redis Matchmaking.

(** What [update_test_results] stores for a room it finds, whatever the
    status of the room and whoever the caller is. *)
Lemma update_test_results_room (now : Z) (rid pid : string) (p t : Z) (r : store)
    (b : BattleRoom) :
  online r = true → get_battle_room now r rid = Some b →
  (update_test_results now rid pid p t r).2 = true ∧
  ∃ b', get_battle_room now (update_test_results now rid pid p t r).1 rid = Some b' ∧
    status b' = (if decide (p = t) then "completed" else status b) ∧
    winner_id b' = (if decide (p = t) then Some pid else winner_id b) ∧
    total_tests b' = t ∧
    player1_tests b' = (if decide (pid = user_id (player1 b)) then p else player1_tests b) ∧
    player2_tests b' = (if decide (pid = user_id (player1 b)) then player2_tests b else p) ∧
    player1 b' = player1 b ∧ player2 b' = player2 b.
Proof.
  intros Hup Hb.
  destruct (RoomFacts.update_test_results_stored now rid pid p t r b Hup Hb)
    as [Heq Hget].
  split; [by rewrite Heq |].
  exists (record_results pid p t b). split; [done |].
  rewrite RoomFacts.record_results_status, RoomFacts.record_results_winner,
    RoomFacts.record_results_total, RoomFacts.record_results_player1_tests,
    RoomFacts.record_results_player2_tests.
  destruct (RoomFacts.record_results_players pid p t b) as (-> & -> & _).
  done.
Qed.

(** C2, as the specification states it, fails.  The room of alice and bob is
    completed, with alice as winner and no test passed by bob.  A result of
    bob for that room is not rejected: [update_test_results] returns True,
    bob's count and the total are overwritten and, when the counts are equal,
    bob replaces alice as winner. *)
Lemma completed_room_accepts_update :
  let rid := Scenario.battle_room_id in
  let won := Scenario.battle_won in
  let b' r := get_battle_room 6000000 r rid in
  status <$> b' won = Some "completed" ∧
  winner_id <$> b' won = Some (Some "alice") ∧
  player2_tests <$> b' won = Some 0 ∧
  (update_test_results 6000000 rid "bob" 5 5 won).2 = true ∧
  winner_id <$> b' (update_test_results 6000000 rid "bob" 5 5 won).1
    = Some (Some "bob") ∧
  (update_test_results 6000000 rid "bob" 2 7 won).2 = true ∧
  player2_tests <$> b' (update_test_results 6000000 rid "bob" 2 7 won).1 = Some 2 ∧
  total_tests <$> b' (update_test_results 6000000 rid "bob" 2 7 won).1 = Some 7.
Proof. vm_compute. repeat split. Qed.

(** C2, amended: completed is terminal for the status only.
    [update_test_results] does not look at the status: for a completed room
    it returns True and the room stays completed, but the total and the
    passed count of the caller's slot (player1's when the caller is player1,
    player2's otherwise) are overwritten, and the winner is replaced by the
    caller when the passed count equals the total (it is unchanged
    otherwise). *)
Theorem update_test_results_completed (now : Z) (rid pid : string) (p t : Z)
    (r : store) (b : BattleRoom) :
  online r = true →
  get_battle_room now r rid = Some b →
  status b = "completed" →
  let '(r', ok) := update_test_results now rid pid p t r in
  ok = true ∧
  ∃ b', get_battle_room now r' rid = Some b' ∧
    status b' = "completed" ∧
    total_tests b' = t ∧
    player1_tests b' = (if decide (pid = user_id (player1 b)) then p else player1_tests b) ∧
    player2_tests b' = (if decide (pid = user_id (player1 b)) then player2_tests b else p) ∧
    winner_id b' = (if decide (p = t) then Some pid else winner_id b) ∧
    player1 b' = player1 b ∧ player2 b' = player2 b.
Proof.
  intros Hup Hb Hdone.
  destruct (update_test_results_room now rid pid p t r b Hup Hb)
    as (Hok & b' & Hb' & Hs & Hw & Ht & H1 & H2 & Hp1 & Hp2).
  destruct (update_test_results now rid pid p t r) as [r' ok]. simpl in *.
  split; [done |]. exists b'. split; [done |]. split.
  - rewrite Hs, Hdone. by destruct (decide (p = t)).
  - done.
Qed.

Lemma update_test_results_completed_witness :
  let '(r', ok) :=
    update_test_results 6000000 Scenario.battle_room_id "bob" 5 5 Scenario.battle_won in
  ok = true ∧
  ∃ b', get_battle_room 6000000 r' Scenario.battle_room_id = Some b' ∧
    status b' = "completed" ∧ total_tests b' = 5 ∧
    player1_tests b' = 5 ∧ player2_tests b' = 5 ∧ winner_id b' = Some "bob".
Proof.
  pose proof (update_test_results_completed 6000000 Scenario.battle_room_id "bob" 5 5
                Scenario.battle_won
                (record_results "alice" 5 5
                   (new_battle 4000000 Scenario.battle_room_id
                      (mkPlayer "alice" "Alice" 1000 1000000 "sidA")
                      (mkPlayer "bob" "Bob" 1100 3000000 "sidB") "palindrome"))
                eq_refl eq_refl eq_refl) as H.
  destruct (update_test_results 6000000 Scenario.battle_room_id "bob" 5 5
              Scenario.battle_won) as [r' ok].
  destruct H as (Hok & b' & Hb' & Hs & Ht & H1 & H2 & Hw & _).
  split; [exact Hok |]. exists b'. repeat split; assumption.
Defined.

(** C10, as stated, fails.  mallory is neither alice nor bob.  Her result for
    their room, five tests passed out of five, is recorded in player2's slot,
    and the winner recorded is mallory herself, not player2 (bob). *)
Lemma outsider_is_recorded_as_winner :
  let rid := Scenario.battle_room_id in
  let '(r', ok) := update_test_results 6000000 rid "mallory" 5 5 Scenario.battle_store in
  ok = true ∧
  user_id ∘ player2 <$> get_battle_room 6000000 r' rid = Some "bob" ∧
  player2_tests <$> get_battle_room 6000000 r' rid = Some 5 ∧
  winner_id <$> get_battle_room 6000000 r' rid = Some (Some "mallory") ∧
  status <$> get_battle_room 6000000 r' rid = Some "completed".
Proof. vm_compute. repeat split. Qed.

(** C10, amended: a result reported for an identity that is neither
    participant of the room is not rejected.  [update_test_results] returns
    True and records it as player2's passed count and the room's total,
    leaving player1's count alone; when the passed count equals the total,
    the room becomes completed and the winner recorded is the caller itself,
    not player2; otherwise status and winner are unchanged. *)
Theorem update_test_results_outsider (now : Z) (rid pid : string) (p t : Z)
    (r : store) (b : BattleRoom) :
  online r = true →
  get_battle_room now r rid = Some b →
  pid ≠ user_id (player1 b) → pid ≠ user_id (player2 b) →
  let '(r', ok) := update_test_results now rid pid p t r in
  ok = true ∧
  ∃ b', get_battle_room now r' rid = Some b' ∧
    player1 b' = player1 b ∧ player2 b' = player2 b ∧
    player2_tests b' = p ∧ total_tests b' = t ∧
    player1_tests b' = player1_tests b ∧
    if decide (p = t)
    then status b' = "completed" ∧ winner_id b' = Some pid ∧
         winner_id b' ≠ Some (user_id (player2 b'))
    else status b' = status b ∧ winner_id b' = winner_id b.
Proof.
  intros Hup Hb Hne1 Hne2.
  destruct (update_test_results_room now rid pid p t r b Hup Hb)
    as (Hok & b' & Hb' & Hs & Hw & Ht & H1 & H2 & Hp1 & Hp2).
  destruct (update_test_results now rid pid p t r) as [r' ok]. simpl in *.
  rewrite decide_False in H1, H2 by done.
  split; [done |]. exists b'. do 6 (split; [done |]).
  destruct (decide (p = t)); [| done].
  split; [done |]. split; [done |]. rewrite Hw, Hp2. congruence.
Qed.

Lemma update_test_results_outsider_witness :
  let '(r', ok) :=
    update_test_results 6000000 Scenario.battle_room_id "mallory" 5 5
      Scenario.battle_store in
  ok = true ∧
  ∃ b', get_battle_room 6000000 r' Scenario.battle_room_id = Some b' ∧
    user_id (player2 b') = "bob" ∧ player2_tests b' = 5 ∧ total_tests b' = 5 ∧
    player1_tests b' = 0 ∧ status b' = "completed" ∧ winner_id b' = Some "mallory".
Proof.
  pose proof (update_test_results_outsider 6000000 Scenario.battle_room_id "mallory" 5 5
                Scenario.battle_store
                (new_battle 4000000 Scenario.battle_room_id
                   (mkPlayer "alice" "Alice" 1000 1000000 "sidA")
                   (mkPlayer "bob" "Bob" 1100 3000000 "sidB") "palindrome")
                eq_refl eq_refl) as H.
  destruct (update_test_results 6000000 Scenario.battle_room_id "mallory" 5 5
              Scenario.battle_store) as [r' ok].
  destruct H as (Hok & b' & Hb' & Hp1 & Hp2 & H2 & Ht & H1 & Hwin);
    [simpl; congruence | simpl; congruence |].
  simpl in Hwin. destruct Hwin as (Hs & Hw & _).
  split; [exact Hok |]. exists b'. split; [exact Hb' |].
  split; [by rewrite Hp2 |]. repeat split; assumption.
Defined.

End SubmitFacts.

(** ** The validator *)

Module ValidatorFacts.

Import Validator.

Lemma check_nodes_accepts (l : list node) :
  (check_nodes l).1 = true ↔ ∀ n, n ∈ l → check_node n = None.
Proof.
  induction l as [| x l IH]; simpl.
  - split; [| done]. intros _ n Hn. by apply elem_of_nil in Hn.
  - destruct (check_node x) as [msg |] eqn:Hx; simpl.
    + split; [done |]. intros H. specialize (H x).
      rewrite Hx in H. discriminate H. apply elem_of_cons. by left.
    + rewrite IH. split.
      * intros H n Hn. apply elem_of_cons in Hn as [-> | Hn]; auto.
      * intros H n Hn. apply H. apply elem_of_cons. by right.
Qed.

Lemma list_max_map_elem {A : Type} (f : A → nat) (l : list A) (x : A) :
  x ∈ l → (f x ≤ list_max (map f l))%nat.
Proof.
  induction l as [| y l IH]; intros Hx; [by apply elem_of_nil in Hx |].
  simpl. apply elem_of_cons in Hx as [-> | Hx]; [lia |].
  specialize (IH Hx). lia.
Qed.

Lemma height_child (n c : node) :
  c ∈ iter_child_nodes n → (height c < height n)%nat.
Proof.
  destruct n as [names | m names lvl | f args kws | i | v a | c0 | k cs]; simpl.
  - intros H. apply list_elem_of_fmap in H as (? & -> & _). simpl. lia.
  - intros H. apply list_elem_of_fmap in H as (? & -> & _). simpl. lia.
  - intros H. apply elem_of_cons in H as [-> | H]; [lia |].
    apply elem_of_app in H as [H | H];
      apply (list_max_map_elem height) in H; lia.
  - intros H. apply list_elem_of_singleton in H as ->. simpl. lia.
  - intros H. apply elem_of_cons in H as [-> | H]; [lia |].
    apply list_elem_of_singleton in H as ->. simpl. lia.
  - intros H. by apply elem_of_nil in H.
  - intros H. apply (list_max_map_elem (fun c => S (height c))) in H. lia.
Qed.

Lemma elem_of_next_level (level : list node) (c : node) :
  c ∈ concat (map iter_child_nodes level) ↔ ∃ n, n ∈ level ∧ c ∈ iter_child_nodes n.
Proof.
  rewrite list_elem_of_In, in_concat. split.
  - intros (cs & Hcs & Hc). apply in_map_iff in Hcs as (n & <- & Hn).
    exists n. by rewrite !list_elem_of_In.
  - intros (n & Hn & Hc). exists (iter_child_nodes n).
    split; [apply in_map |]; by apply list_elem_of_In.
Qed.

Lemma walk_levels_complete (fuel : nat) (level : list node) (m n : node) :
  (∀ x, x ∈ level → (height x ≤ fuel)%nat) →
  n ∈ level → subnode m n → m ∈ walk_levels fuel level.
Proof.
  revert level n. induction fuel as [| fuel IH]; intros level n Hfuel Hn Hsub.
  - simpl. destruct Hsub as [| n c Hc _]; [done |].
    apply height_child in Hc. specialize (Hfuel n Hn). lia.
  - simpl. destruct level as [| x level]; [by apply elem_of_nil in Hn |].
    apply elem_of_app. destruct Hsub as [| n c Hc Hsub]; [by left |]. right.
    apply (IH _ c); [| | done].
    + intros y Hy. apply elem_of_next_level in Hy as (p & Hp & Hy).
      apply height_child in Hy. specialize (Hfuel p Hp). lia.
    + apply elem_of_next_level. by exists n.
Qed.

(** The walk visits every node of the tree. *)
Lemma walk_complete (tree m : node) : subnode m tree → m ∈ walk tree.
Proof.
  intros Hsub. apply (walk_levels_complete _ _ m tree); [| | done].
  - intros x Hx. by apply list_elem_of_singleton in Hx as ->.
  - by apply list_elem_of_singleton.
Qed.

(** What the validator does guarantee: a tree with a node that triggers one of
    its tests, anywhere in the tree, is rejected. *)
Lemma triggering_node_rejected (tree n : node) :
  subnode n tree → is_Some (check_node n) → (check_parsed (inl tree)).1 = false.
Proof.
  intros Hsub [msg Hn]. simpl.
  destruct (check_nodes (walk tree)).1 eqn:H; [| done].
  apply check_nodes_accepts with (n := n) in H; [congruence |].
  by apply walk_complete.
Qed.

(** The imports and calls the validator does reject. *)
Example direct_and_aliased_imports_rejected :
  check_parsed (inl import_os_as_o) = (false, "Forbidden import detected: os") ∧
  check_parsed (inl from_os_import_system) = (false, "Forbidden import detected: os") ∧
  check_parsed (inl dunder_import_os)
    = (false, "Dangerous function call blocked: __import__") ∧
  check_parsed (inl builtins_attr_import_os)
    = (false, "Dangerous attribute access blocked: __import__").
Proof. vm_compute. repeat split. Qed.

(** C4 fails on the code: the program
    [getattr(__builtins__, '__import__')('os')], the reflective lookup the
    comment of the validator names, is accepted.  The function of the outer
    call is a call, not a name or an attribute, and the inner call is to the
    name [getattr], which is on no list. *)
Theorem getattr_import_accepted :
  check_parsed (inl getattr_import_os) = (true, "").
Proof. vm_compute. reflexivity. Qed.

End ValidatorFacts.

(** ** The Java executor *)

Module JavaFacts.

Import JavaExecutor.

Section Environment.
Variable json_dumps : list json → string.
Variable json_loads : string → json + string.
Variable javac : wrapper → Subprocess.child.
Variable java : wrapper → Subprocess.child.

Lemma run_overrun (c : Subprocess.child) (timeout : Z) :
  Subprocess.overruns c timeout →
  Subprocess.run c timeout = (Subprocess.TimeoutExpired, Subprocess.Killed).
Proof.
  destruct c as [e | d rc out err |]; simpl; [done | | done].
  intros H. by rewrite (proj2 (Z.leb_gt _ _) H).
Qed.

(** C6: when the compiled program is still running after [timeout] seconds,
    its process is killed, nothing of its output is parsed, and the result
    reports the timeout with zero passed tests out of the declared number of
    test cases. *)
Theorem execute_java_code_timeout (code : string) (test_cases : list json)
    (cls : string) (timeout : Z) (out err : string) :
  let w := build_java_test_wrapper json_dumps code test_cases cls in
  (check_forbidden_imports_java code).1 = true →
  Subprocess.run (javac w) 10 = (Subprocess.Completed 0 out err, Subprocess.ExitedByItself) →
  Subprocess.overruns (java w) timeout →
  let '(res, fates) :=
    execute_java_code json_dumps json_loads javac java code test_cases cls timeout in
  last fates = Some Subprocess.Killed ∧
  success res = false ∧
  passed_tests res = JNum 0 ∧
  total_tests res = JNum (Z.of_nat (length test_cases)) ∧
  test_results res = None ∧
  error res = Some ("Timeout: execution exceeded " +:+ pretty timeout +:+ "s").
Proof.
  simpl. intros Hsafe Hjavac Hjava. unfold execute_java_code.
  destruct (check_forbidden_imports_java code) as [safe msg]. simpl in Hsafe.
  subst safe. simpl. rewrite Hjavac. simpl.
  rewrite (run_overrun _ _ Hjava). done.
Qed.

End Environment.

Lemma execute_java_code_timeout_witness :
  let '(res, fates) :=
    execute_java_code Scenario.json_dumps Scenario.json_loads Scenario.javac
      Scenario.slow_java "class Solution {}" [JObj [("input", JNum 1); ("expected", JNum 1)]]
      "Solution" 5 in
  last fates = Some Subprocess.Killed ∧
  success res = false ∧
  passed_tests res = JNum 0 ∧
  total_tests res = JNum 1 ∧
  test_results res = None ∧
  error res = Some ("Timeout: execution exceeded " +:+ pretty 5 +:+ "s").
Proof.
  apply (execute_java_code_timeout Scenario.json_dumps Scenario.json_loads
           Scenario.javac Scenario.slow_java "class Solution {}"
           [JObj [("input", JNum 1); ("expected", JNum 1)]] "Solution" 5 "" "").
  - vm_compute. reflexivity.
  - vm_compute. reflexivity.
  - vm_compute. reflexivity.
Defined.

(** Scenario C: ten seconds of work under a timeout of five. *)
Example scenario_c_timeout :
  execute_java_code Scenario.json_dumps Scenario.json_loads Scenario.javac
    Scenario.slow_java "class Solution {}" [JObj [("input", JNum 1); ("expected", JNum 1)]]
    "Solution" 5
  = (mkResult false (JNum 0) (JNum 1) None (Some "Timeout: execution exceeded 5s"),
     [Subprocess.ExitedByItself; Subprocess.Killed]).
Proof. vm_compute. reflexivity. Qed.

End JavaFacts.

(** ** Code sync *)

Module SyncFacts.

Import Redis Matchmaking Handlers HandlerSpec.

Lemma touch_timestamp (key key' : string) (m : gmap string (gmap string Z)) :
  touch key m !! key' ≫= (.!! "timestamp") = m !! key' ≫= (.!! "timestamp").
Proof.
  unfold touch. destruct (m !! key) eqn:Hkey; [done |].
  destruct (decide (key = key')) as [<- | Hne].
  - rewrite lookup_insert_eq, Hkey. done.
  - by rewrite lookup_insert_ne.
Qed.

(** An event that is dropped, finds no room or no server: nothing is sent,
    Redis is untouched, and the timestamps kept are the same. *)
Lemma sync_code_quiet (now : Z) (sid uid rid code : string) (ts : Z) (s : server) :
  online (redis s) = false ∨ get_battle_room now (redis s) rid = None ∨
    deduplicated s uid rid ts = true →
  let '(s', events) := sync_code now sid uid rid code ts s in
  events = [] ∧ redis s' = redis s ∧
  ∀ u r, last_sync s' u r = last_sync s u r.
Proof.
  intros Hquiet. unfold sync_code.
  destruct (online (redis s)) eqn:Hup; [| done].
  destruct (get_battle_room now (redis s) rid) as [b |] eqn:Hb; [| done].
  destruct Hquiet as [? | [? | Hdrop]]; [done.. |].
  unfold deduplicated, last_sync in Hdrop.
  rewrite touch_timestamp, Hdrop. split; [done |]. split; [done |].
  intros u r. unfold last_sync. simpl. by rewrite touch_timestamp.
Qed.

(** An event that is not dropped: the code is written into the room and one
    update is sent to the room, the sender excepted. *)
Lemma sync_code_applied (now : Z) (sid uid rid code : string) (ts : Z) (s : server)
    (b : BattleRoom) :
  online (redis s) = true → get_battle_room now (redis s) rid = Some b →
  deduplicated s uid rid ts = false →
  let '(s', events) := sync_code now sid uid rid code ts s in
  events = [opponent_code_update code uid ts rid sid] ∧
  redis s' = set_rooms (setex now rid (write_code uid code b) TTL (rooms (redis s)))
               (redis s) ∧
  last_sync s' uid rid = ts.
Proof.
  intros Hup Hb Hkeep. unfold sync_code. rewrite Hup, Hb.
  unfold deduplicated, last_sync in Hkeep. rewrite touch_timestamp, Hkeep.
  split; [done |]. split.
  - simpl. unfold update_player_code. simpl. by rewrite Hup, Hb.
  - unfold last_sync. simpl. by rewrite lookup_insert_eq; simpl; rewrite lookup_insert_eq.
Qed.

(** C8 fails on the code.  alice's last kept sync has timestamp 1000 and
    text "a", and the room is there.  Her sync of another text, "ab", with
    timestamp 1100 is dropped: the handler compares the timestamps only, not
    the texts, although its comment speaks of the same code.  Nothing is sent
    and the state of the server is as before, so the opponent is not shown
    the latest text.  This is so whether the first sync was forwarded
    ([battle_synced]) or its call of [update_player_code] raised
    ([battle_stamped]). *)
Theorem newer_text_is_dropped :
  let rid := Scenario.battle_room_id in
  Forall (fun s =>
      last_sync s "alice" rid = 1000 ∧
      is_Some (get_battle_room 5100000 (redis s) rid) ∧
      deduplicated s "alice" rid 1100 = true ∧
      sync_code 5100000 "sidA" "alice" rid "ab" 1100 s = (s, []))
    [Scenario.battle_synced; Scenario.battle_stamped].
Proof.
  repeat (apply Forall_cons; split;
          [cbv beta; split_and!; vm_compute; by eauto |]).
  by apply Forall_nil.
Qed.

End SyncFacts.

(** ** Disconnection *)

Module DisconnectFacts.

Import Redis Matchmaking Handlers.

(** C9: when the socket of a participant who is in a battle disconnects, the
    handler removes the participant's queue entry and connection handles and
    nothing else: the rooms and the map from players to rooms are left as
    they were, so the identity finds the same room, unchanged, at any later
    instant up to the expiry of its keys, and not after it. *)
Theorem disconnect_keeps_room (now : Z) (sid uid : string) (s : server)
    (b : BattleRoom) :
  socket_to_user s !! sid = Some uid →
  uid ≠ "" →
  online (redis s) = true →
  get_player_battle_room now (redis s) uid = Some b →
  let s' := disconnect sid s in
  rooms (redis s') = rooms (redis s) ∧
  player_room (redis s') = player_room (redis s) ∧
  last_sync_timestamps s' = last_sync_timestamps s ∧
  queue (redis s') = zrem uid (queue (redis s)) ∧
  zscore (queue (redis s')) uid = None ∧
  players (redis s') = del uid (players (redis s)) ∧
  connected_users s' = delete uid (connected_users s) ∧
  socket_to_user s' = delete sid (socket_to_user s) ∧
  get_player_battle_room now (redis s') uid = Some b ∧
  (∀ t, get_player_battle_room t (redis s') uid = get_player_battle_room t (redis s) uid) ∧
  ∃ deadline, now < deadline ∧
    ∀ t, deadline ≤ t → get_player_battle_room t (redis s') uid = None.
Proof.
  intros Hsid Hne Hup Hroom. simpl. unfold disconnect.
  rewrite Hsid, decide_False by done.
  unfold remove_from_queue. rewrite Hup. simpl.
  repeat (split; [done |]).
  split; [unfold zscore, zrem; apply lookup_delete_eq |].
  repeat (split; [done |]).
  unfold get_player_battle_room, get in Hroom |- *. simpl.
  destruct (player_room (redis s) !! uid) as [e |] eqn:He; [| done].
  destruct (now <? expires_at e) eqn:Hlive; [| done].
  exists (expires_at e). split; [by apply Z.ltb_lt |].
  intros t Ht. by rewrite (proj2 (Z.ltb_ge _ _)) by lia.
Qed.

Lemma disconnect_keeps_room_witness :
  let s := Scenario.battle in
  let b := new_battle 4000000 "room_0123456789ab"
             (mkPlayer "alice" "Alice" 1000 1000000 "sidA")
             (mkPlayer "bob" "Bob" 1100 3000000 "sidB") "palindrome" in
  let s' := disconnect "sidA" s in
  rooms (redis s') = rooms (redis s) ∧
  player_room (redis s') = player_room (redis s) ∧
  last_sync_timestamps s' = last_sync_timestamps s ∧
  queue (redis s') = zrem "alice" (queue (redis s)) ∧
  zscore (queue (redis s')) "alice" = None ∧
  players (redis s') = del "alice" (players (redis s)) ∧
  connected_users s' = delete "alice" (connected_users s) ∧
  socket_to_user s' = delete "sidA" (socket_to_user s) ∧
  get_player_battle_room 6000000 (redis s') "alice" = Some b ∧
  (∀ t, get_player_battle_room t (redis s') "alice"
        = get_player_battle_room t (redis s) "alice") ∧
  ∃ deadline, 6000000 < deadline ∧
    ∀ t, deadline ≤ t → get_player_battle_room t (redis s') "alice" = None.
Proof.
  apply (disconnect_keeps_room 6000000 "sidA" "alice" Scenario.battle).
  - vm_compute. reflexivity.
  - discriminate.
  - reflexivity.
  - vm_compute. reflexivity.
Defined.

(** A participant still waiting in the queue is taken out of it. *)
Example disconnect_leaves_queue :
  let s := mkServer Scenario.two_queued ∅ {[ "sidB" := "bob" ]} ∅ in
  zrange_all (queue (redis s)) = ["alice"; "bob"] ∧
  zrange_all (queue (redis (disconnect "sidB" s))) = ["alice"].
Proof. vm_compute. split; reflexivity. Qed.

End DisconnectFacts.

(** * Further properties of the code *)

(** ** Order of the queue *)

Module QueueOrder.

Import Redis Matchmaking.

#[global] Instance zle_antisymm : AntiSymm (=) zle.
Proof.
  intros [m1 s1] [m2 s2]. unfold zle. simpl.
  intros [H12 | [-> H12]] [H21 | [H21 H21']]; try lia.
  f_equal. by apply (anti_symm String.le).
Qed.

(** The members in [ZRANGE] order are the one sorted arrangement of the
    members. *)
Lemma scored_unique (q : gmap string Z) (l : list (string * Z)) :
  StronglySorted zle l → l ≡ₚ map_to_list q → scored q = l.
Proof.
  intros Hsorted Hperm. apply (StronglySorted_unique zle).
  - apply RedisFacts.scored_sorted.
  - done.
  - unfold scored. by rewrite merge_sort_Permutation.
Qed.

Lemma StronglySorted_filter_keep {A : Type} (R : relation A) (P : A → Prop)
    `{∀ x, Decision (P x)} (l : list A) :
  StronglySorted R l → StronglySorted R (filter P l).
Proof.
  induction 1 as [| x l Hl IH Hx]; [constructor |].
  rewrite filter_cons. destruct (decide (P x)); [| done].
  constructor; [done |]. rewrite Forall_forall in Hx |- *.
  intros y Hy. apply list_elem_of_filter in Hy as [_ Hy]. by apply Hx.
Qed.

Lemma filter_fst_ne (uid : string) (l : list (string * Z)) :
  (filter (fun x => x.1 ≠ uid) l).*1 = filter (fun m => m ≠ uid) (l.*1).
Proof.
  induction l as [| [m s] l IH]; [done |].
  rewrite fmap_cons. rewrite !filter_cons. simpl.
  destruct (decide (m ≠ uid)); [rewrite fmap_cons; simpl |]; by rewrite <- IH.
Qed.

Lemma zrange_all_zadd_last (q : gmap string Z) (uid : string) (now : Z) :
  q !! uid = None → (∀ m s, q !! m = Some s → s < now) →
  zrange_all (zadd uid now q) = zrange_all q ++ [uid].
Proof.
  intros Hfresh Hlater. unfold zrange_all, zadd.
  rewrite (scored_unique (<[uid:=now]> q) (scored q ++ [(uid, now)])).
  - by rewrite fmap_app.
  - apply StronglySorted_app_2.
    + intros [m s] x2 H1 H2. apply list_elem_of_singleton in H2 as ->.
      apply RedisFacts.elem_of_scored in H1. left. simpl. by eapply Hlater.
    + apply RedisFacts.scored_sorted.
    + repeat constructor.
  - rewrite map_to_list_insert by done. rewrite <- Permutation_cons_append.
    constructor. unfold scored. by rewrite merge_sort_Permutation.
Qed.

Lemma zrange_all_zrem (q : gmap string Z) (uid : string) :
  zrange_all (zrem uid q) = filter (fun m => m ≠ uid) (zrange_all q).
Proof.
  unfold zrange_all, zrem. rewrite <- filter_fst_ne. f_equal.
  apply scored_unique.
  - apply StronglySorted_filter_keep, RedisFacts.scored_sorted.
  - apply NoDup_Permutation.
    + apply NoDup_filter. unfold scored. rewrite merge_sort_Permutation.
      apply NoDup_map_to_list.
    + apply NoDup_map_to_list.
    + intros [m s]. rewrite list_elem_of_filter, RedisFacts.elem_of_scored,
        elem_of_map_to_list. simpl.
      destruct (decide (m = uid)) as [-> | Hne].
      * rewrite lookup_delete_eq. split; [by intros [? _] | done].
      * rewrite lookup_delete_ne by done. split; [by intros [_ ?] | done].
Qed.

(** X1: an identity that is not queued and joins at an instant later than
    every insertion key in the queue goes to the back of the queue: the
    order of the entries already there is unchanged, the queue has one entry
    more, and the call reports success. *)
Theorem add_to_queue_joins_at_back (now : Z) (uid uname : string) (elo : Z)
    (sid : string) (r : store) :
  online r = true →
  zscore (queue r) uid = None →
  (∀ m s, zscore (queue r) m = Some s → s < now) →
  let '(r', res) := add_to_queue now uid uname elo sid r in
  zrange_all (queue r') = zrange_all (queue r) ++ [uid] ∧
  get_queue_size r' = get_queue_size r + 1 ∧
  res = AddSuccess uid.
Proof.
  intros Hup Hfresh Hlater. unfold add_to_queue. rewrite Hup. simpl.
  split; [by apply zrange_all_zadd_last |]. split; [| done].
  unfold get_queue_size, zcard, zadd. simpl.
  rewrite map_size_insert_None by done. lia.
Qed.

Lemma add_to_queue_joins_at_back_witness :
  let '(r', res) :=
    add_to_queue 9000000 "carol" "Carol" 1500 "sidC" Scenario.two_queued in
  zrange_all (queue r') = zrange_all (queue Scenario.two_queued) ++ ["carol"] ∧
  get_queue_size r' = get_queue_size Scenario.two_queued + 1 ∧
  res = AddSuccess "carol".
Proof.
  apply (add_to_queue_joins_at_back 9000000 "carol" "Carol" 1500 "sidC"
           Scenario.two_queued).
  - reflexivity.
  - vm_compute. reflexivity.
  - intros m s Hm.
    assert (m ∈ zrange_all (queue Scenario.two_queued)) as Hin.
    { apply RedisFacts.elem_of_zrange_all. by exists s. }
    vm_compute in Hin.
    apply elem_of_cons in Hin as [-> | Hin];
      [vm_compute in Hm; injection Hm as <-; lia |].
    apply elem_of_cons in Hin as [-> | Hin];
      [vm_compute in Hm; injection Hm as <-; lia |].
    by apply elem_of_nil in Hin.
Defined.

(** X2: [remove_from_queue] on a reachable server takes the identity out of
    the queue and deletes its player record, keeps every other entry in the
    order it had, and returns True whether or not the identity was queued; an
    identity that was not queued leaves the queue as it was. *)
Theorem remove_from_queue_keeps_order (uid : string) (r : store) :
  online r = true →
  let '(r', ok) := remove_from_queue uid r in
  ok = true ∧
  zrange_all (queue r') = filter (fun m => m ≠ uid) (zrange_all (queue r)) ∧
  (uid ∉ zrange_all (queue r')) ∧
  players r' !! uid = None ∧
  (zscore (queue r) uid = None → queue r' = queue r) ∧
  (is_Some (zscore (queue r) uid) → get_queue_size r' = get_queue_size r - 1) ∧
  rooms r' = rooms r ∧ player_room r' = player_room r.
Proof.
  intros Hup. unfold remove_from_queue. rewrite Hup. simpl.
  split; [done |]. split; [apply zrange_all_zrem |]. split.
  { rewrite zrange_all_zrem. intros H. by apply list_elem_of_filter in H as [H _]. }
  split; [apply lookup_delete_eq |]. split.
  { intros H. unfold zrem. by apply delete_id. }
  split; [| done].
  intros Hin. unfold get_queue_size, zcard, zrem. simpl.
  rewrite map_size_delete_Some by done.
  destruct Hin as [s Hs]. pose proof (map_size_non_empty_iff (queue r)) as Hne.
  assert (size (queue r) ≠ 0%nat) as Hsize.
  { apply Hne. intros Hempty. unfold zscore in Hs.
    by rewrite Hempty, lookup_empty in Hs. }
  lia.
Qed.

Lemma remove_from_queue_keeps_order_witness :
  let '(r', ok) := remove_from_queue "bob" Scenario.three_queued in
  ok = true ∧
  zrange_all (queue r')
    = filter (fun m => m ≠ "bob") (zrange_all (queue Scenario.three_queued)) ∧
  ("bob" ∉ zrange_all (queue r')) ∧
  players r' !! "bob" = None ∧
  (zscore (queue Scenario.three_queued) "bob" = None →
     queue r' = queue Scenario.three_queued) ∧
  (is_Some (zscore (queue Scenario.three_queued) "bob") →
     get_queue_size r' = get_queue_size Scenario.three_queued - 1) ∧
  rooms r' = rooms Scenario.three_queued ∧
  player_room r' = player_room Scenario.three_queued.
Proof.
  apply (remove_from_queue_keeps_order "bob" Scenario.three_queued). reflexivity.
Defined.

(** X3: joining and leaving is a round trip: for an identity that has no
    queue entry and no player record, [add_to_queue] followed by
    [remove_from_queue] gives back the store as it was. *)
Theorem add_then_remove_restores (now : Z) (uid uname : string) (elo : Z)
    (sid : string) (r : store) :
  online r = true →
  zscore (queue r) uid = None → players r !! uid = None →
  (remove_from_queue uid (add_to_queue now uid uname elo sid r).1).1 = r.
Proof.
  intros Hup Hq Hp. unfold add_to_queue, remove_from_queue. rewrite Hup. simpl.
  unfold zrem, zadd, del, setex, set_queue, set_players. simpl.
  rewrite !delete_insert_id by done. destruct r. simpl in *. by subst.
Qed.

Lemma add_then_remove_restores_witness :
  (remove_from_queue "carol"
     (add_to_queue 9000000 "carol" "Carol" 1500 "sidC" Scenario.two_queued).1).1
  = Scenario.two_queued.
Proof.
  apply (add_then_remove_restores 9000000 "carol" "Carol" 1500 "sidC"
           Scenario.two_queued); vm_compute; reflexivity.
Defined.

End QueueOrder.

(** ** Matches and rooms *)

Module MatchExtras.

Import Redis Matchmaking.

(** What [find_best_match] returns is another identity of the queue that has
    a player record. *)
Lemma find_best_match_candidate (now : Z) (r : store) (pid : string) (tol : Z)
    (c : string) :
  find_best_match now r pid tol = Some c →
  c ≠ pid ∧ c ∈ zrange_all (queue r) ∧ is_Some (Redis.get now (players r) c).
Proof.
  unfold find_best_match. destruct (online r); [| done].
  destruct (Redis.get now (players r) pid) as [p |]; [| done].
  pose proof (QueueFacts.scan_spec now r pid (elo_rating p) tol (zrange_all (queue r)))
    as Hscan.
  unfold QueueSpec.scan_result in Hscan.
  destruct (foldl _ _ _) as [[c' |] [d |]]; simpl in *; try done.
  intros [= ->]. destruct Hscan as (l1 & l2 & Hl & Hdiff & _).
  unfold QueueSpec.candidate_diff in Hdiff.
  destruct (decide (c = pid)); [done |].
  destruct (Redis.get now (players r) c) as [pc |]; [| done].
  split; [done |]. split; [| eauto].
  rewrite Hl, elem_of_app, elem_of_cons. auto.
Qed.

Lemma room_key_not_empty (uuid12 : string) : "room_" +:+ uuid12 ≠ "".
Proof. done. Qed.

(** X4: [attempt_matchmaking] is all or nothing.  When it returns no room the
    store is unchanged.  When it returns a room, the two players are distinct
    identities that were both queued, the head of the queue being player1;
    both are out of the queue afterwards and nobody else is, the player
    records stay, and each of the two finds the room through
    [get_player_battle_room]. *)
Theorem attempt_matchmaking_atomic (now : Z) (uuid12 cid : string) (r : store) :
  match attempt_matchmaking now uuid12 cid r with
  | (r', None) => r' = r
  | (r', Some room) =>
      ∃ h c, h ≠ c ∧
        zrange_first (queue r) = [h] ∧
        is_Some (zscore (queue r) c) ∧
        Redis.get now (players r) h = Some (player1 room) ∧
        Redis.get now (players r) c = Some (player2 room) ∧
        queue r' = zrem c (zrem h (queue r)) ∧
        get_queue_size r' = get_queue_size r - 2 ∧
        players r' = players r ∧
        room_id room = "room_" +:+ uuid12 ∧
        get_player_battle_room now r' h = Some room ∧
        get_player_battle_room now r' c = Some room
  end.
Proof.
  unfold attempt_matchmaking. destruct (online r) eqn:Hup; [| done].
  destruct (get_queue_size r <? 2); [done |].
  destruct (zrange_first (queue r)) as [| h tl] eqn:Hfirst; [done |].
  destruct (find_best_match now r h default_tolerance) as [c |] eqn:Hbest; [| done].
  destruct (decide (c = "")); [done |].
  destruct (Redis.get now (players r) h) as [ph |] eqn:Hph; [| done].
  destruct (Redis.get now (players r) c) as [pc |] eqn:Hpc; [| done].
  apply find_best_match_candidate in Hbest as (Hne & Hc & _).
  apply RedisFacts.elem_of_zrange_all in Hc.
  assert (tl = [] ∧ is_Some (queue r !! h)) as [-> Hh].
  { unfold zrange_first in Hfirst.
    destruct (zrange_all (queue r)) as [| h' rest] eqn:Hall; [done |].
    simpl in Hfirst. rewrite take_0 in Hfirst. injection Hfirst as -> <-.
    split; [done |]. apply RedisFacts.elem_of_zrange_all.
    rewrite Hall, elem_of_cons. by left. }
  exists h, c. simpl.
  split; [done |]. split; [done |]. split; [done |]. split; [done |].
  split; [done |]. split; [done |]. split.
  { unfold get_queue_size, zcard, zrem. simpl.
    rewrite map_size_delete_Some by (by rewrite lookup_delete_ne).
    rewrite map_size_delete_Some by done.
    assert (2 ≤ size (queue r))%nat; [| lia].
    destruct Hh as [sh Hsh], Hc as [sc Hsc].
    rewrite <- (insert_delete_id (queue r) h sh) by done.
    rewrite map_size_insert_None by apply lookup_delete_eq.
    assert (size (delete h (queue r)) ≠ 0%nat); [| lia].
    apply map_size_non_empty_iff. intros Hempty.
    assert (delete h (queue r) !! c = Some sc) as H by (by rewrite lookup_delete_ne).
    by rewrite Hempty, lookup_empty in H. }
  split; [done |]. split; [done |].
  assert (0 < TTL) as Httl by (unfold TTL; lia).
  unfold get_player_battle_room, get_battle_room. simpl. split.
  - unfold Redis.get at 1, setex at 1.
    rewrite lookup_insert_ne by done.
    fold (Redis.get now (setex now h ("room_" +:+ uuid12) TTL (player_room r)) h).
    rewrite RedisFacts.get_setex_eq by done.
    rewrite decide_False by apply room_key_not_empty.
    by apply RedisFacts.get_setex_eq.
  - rewrite RedisFacts.get_setex_eq by done.
    rewrite decide_False by apply room_key_not_empty.
    by apply RedisFacts.get_setex_eq.
Qed.

(** X5: an entry at the head of the queue whose player record is gone (it
    has expired, or was deleted) blocks matchmaking: whoever else is queued,
    [attempt_matchmaking] returns no room and changes nothing. *)
Theorem missing_head_record_blocks (now : Z) (uuid12 cid : string) (r : store)
    (h : string) (rest : list string) :
  zrange_all (queue r) = h :: rest →
  Redis.get now (players r) h = None →
  attempt_matchmaking now uuid12 cid r = (r, None).
Proof.
  intros Hq Hh. unfold attempt_matchmaking.
  destruct (online r) eqn:Hup; [| done].
  destruct (get_queue_size r <? 2); [done |].
  unfold zrange_first. rewrite Hq. simpl.
  unfold find_best_match. by rewrite Hup, Hh.
Qed.

Lemma missing_head_record_blocks_witness :
  attempt_matchmaking 3602000000 "0123456789ab" "palindrome" Scenario.two_queued
  = (Scenario.two_queued, None).
Proof.
  apply (missing_head_record_blocks 3602000000 "0123456789ab" "palindrome"
           Scenario.two_queued "alice" ["bob"]); vm_compute; reflexivity.
Defined.

Lemma get_setex_at {V : Type} (t now : Z) (k : string) (v : V) (ex : Z)
    (m : gmap string (entry V)) :
  Redis.get t (setex now k v ex m) k
    = if t <? now + ex * second then Some v else None.
Proof. unfold Redis.get, setex. by rewrite lookup_insert_eq. Qed.

Lemma get_setex_ne {V : Type} (t now : Z) (k k' : string) (v : V) (ex : Z)
    (m : gmap string (entry V)) :
  k ≠ k' → Redis.get t (setex now k v ex m) k' = Redis.get t m k'.
Proof. intros Hne. unfold Redis.get, setex. by rewrite lookup_insert_ne. Qed.

(** X6: a room created at instant [now] can be read, by its identifier and
    through either of its two players, at every instant before [now] plus
    3600 seconds, and at no instant from then on (as long as nothing writes
    it again). *)
Theorem matched_room_lifetime (now : Z) (uuid12 cid : string) (r r' : store)
    (room : BattleRoom) :
  attempt_matchmaking now uuid12 cid r = (r', Some room) →
  ∃ h c, h ≠ c ∧
    Redis.get now (players r) h = Some (player1 room) ∧
    Redis.get now (players r) c = Some (player2 room) ∧
    ∀ t, let found := if t <? now + 3600 * second then Some room else None in
      get_battle_room t r' (room_id room) = found ∧
      get_player_battle_room t r' h = found ∧
      get_player_battle_room t r' c = found.
Proof.
  unfold attempt_matchmaking. destruct (online r) eqn:Hup; [| done].
  destruct (get_queue_size r <? 2); [done |].
  destruct (zrange_first (queue r)) as [| h tl] eqn:Hfirst; [done |].
  destruct (find_best_match now r h default_tolerance) as [c |] eqn:Hbest; [| done].
  destruct (decide (c = "")); [done |].
  destruct (Redis.get now (players r) h) as [ph |] eqn:Hph; [| done].
  destruct (Redis.get now (players r) c) as [pc |] eqn:Hpc; [| done].
  apply find_best_match_candidate in Hbest as (Hne & _ & _).
  intros [= <- <-]. exists h, c.
  split; [done |]. split; [done |]. split; [done |].
  intros t. simpl. unfold get_player_battle_room, get_battle_room. simpl.
  rewrite (get_setex_ne t now c h) by done. rewrite !get_setex_at.
  change (TTL * second) with (3600 * second).
  destruct (t <? now + 3600 * second) eqn:Ht; simpl; [| done].
  rewrite get_setex_at. change (TTL * second) with (3600 * second).
  by rewrite Ht.
Qed.

Lemma matched_room_lifetime_witness :
  ∃ h c, h ≠ c ∧
    Redis.get 4000000 (players Scenario.two_queued) h
      = Some (mkPlayer "alice" "Alice" 1000 1000000 "sidA") ∧
    Redis.get 4000000 (players Scenario.two_queued) c
      = Some (mkPlayer "bob" "Bob" 1100 3000000 "sidB") ∧
    ∀ t, let found :=
           if t <? 4000000 + 3600 * second
           then Some (new_battle 4000000 "room_0123456789ab"
                        (mkPlayer "alice" "Alice" 1000 1000000 "sidA")
                        (mkPlayer "bob" "Bob" 1100 3000000 "sidB") "palindrome")
           else None in
      get_battle_room t Scenario.battle_store "room_0123456789ab" = found ∧
      get_player_battle_room t Scenario.battle_store h = found ∧
      get_player_battle_room t Scenario.battle_store c = found.
Proof.
  apply (matched_room_lifetime 4000000 "0123456789ab" "palindrome"
           Scenario.two_queued Scenario.battle_store
           (new_battle 4000000 "room_0123456789ab"
              (mkPlayer "alice" "Alice" 1000 1000000 "sidA")
              (mkPlayer "bob" "Bob" 1100 3000000 "sidB") "palindrome")).
  vm_compute. reflexivity.
Defined.

(** X7: [update_test_results] returns False, and changes nothing, exactly
    when the server does not answer or the room is not there.  Otherwise it
    returns True and writes that one room: the queue, the player records, the
    player-to-room keys and every other room are as before; in the room, the
    identifier, the two players, the challenge, the creation instant and
    both stored codes are as before, the total is the one given, and the room
    is readable for another 3600 seconds from the update. *)
Theorem update_test_results_frame (now : Z) (rid pid : string) (p t : Z) (r : store) :
  let '(r', ok) := update_test_results now rid pid p t r in
  queue r' = queue r ∧ players r' = players r ∧ player_room r' = player_room r ∧
  online r' = online r ∧ delete rid (rooms r') = delete rid (rooms r) ∧
  if ok then
    ∃ b b', online r = true ∧ get_battle_room now r rid = Some b ∧
      (∀ t', get_battle_room t' r' rid
             = if t' <? now + 3600 * second then Some b' else None) ∧
      room_id b' = room_id b ∧ player1 b' = player1 b ∧ player2 b' = player2 b ∧
      challenge_id b' = challenge_id b ∧ created_at b' = created_at b ∧
      player1_code b' = player1_code b ∧ player2_code b' = player2_code b ∧
      total_tests b' = t
  else
    r' = r ∧ (online r = false ∨ get_battle_room now r rid = None).
Proof.
  unfold update_test_results. destruct (online r) eqn:Hup; [| by auto 10].
  destruct (get_battle_room now r rid) as [b |] eqn:Hb; [| by auto 10].
  simpl. repeat (split; [done |]). split.
  { unfold setex. by rewrite delete_insert_eq. }
  exists b, (record_results pid p t b). split; [done |]. split; [done |]. split.
  { intros t'. unfold get_battle_room. simpl. apply get_setex_at. }
  unfold record_results. repeat case_decide; done.
Qed.

(** X8: [find_best_match], for any tolerance.  A result is another queued
    identity with a player record, within the tolerance of the player's
    rating, and no queued identity with a record is strictly closer.  There
    is no result when the server does not answer, when the player has no
    record, or when every other queued identity with a record is farther than
    the tolerance. *)
Theorem find_best_match_spec (now : Z) (r : store) (pid : string) (tol : Z) :
  match find_best_match now r pid tol with
  | Some c =>
      ∃ p pc, Redis.get now (players r) pid = Some p ∧
        Redis.get now (players r) c = Some pc ∧
        c ≠ pid ∧ is_Some (zscore (queue r) c) ∧
        Z.abs (elo_rating p - elo_rating pc) ≤ tol ∧
        ∀ c' pc', is_Some (zscore (queue r) c') → c' ≠ pid →
          Redis.get now (players r) c' = Some pc' →
          Z.abs (elo_rating p - elo_rating pc) ≤ Z.abs (elo_rating p - elo_rating pc')
  | None =>
      online r = false ∨ Redis.get now (players r) pid = None ∨
      ∃ p, Redis.get now (players r) pid = Some p ∧
        ∀ c' pc', is_Some (zscore (queue r) c') → c' ≠ pid →
          Redis.get now (players r) c' = Some pc' →
          tol < Z.abs (elo_rating p - elo_rating pc')
  end.
Proof.
  unfold find_best_match. destruct (online r); [| by left].
  destruct (Redis.get now (players r) pid) as [p |] eqn:Hp; [| by right; left].
  pose proof (QueueFacts.scan_spec now r pid (elo_rating p) tol (zrange_all (queue r)))
    as Hscan.
  unfold QueueSpec.scan_result in Hscan.
  assert (∀ c' pc', c' ≠ pid → Redis.get now (players r) c' = Some pc' →
            QueueSpec.candidate_diff now r pid (elo_rating p) c'
              = Some (Z.abs (elo_rating p - elo_rating pc'))) as Hdiff.
  { intros c' pc' Hne Hc'. unfold QueueSpec.candidate_diff.
    rewrite decide_False by done. by rewrite Hc'. }
  destruct (foldl _ _ _) as [[c |] [d |]]; simpl in *; try done.
  - destruct Hscan as (l1 & l2 & Hl & Hc & Hd & Hbefore & Hafter).
    pose proof Hc as Hc0. unfold QueueSpec.candidate_diff in Hc0.
    destruct (decide (c = pid)); [done |].
    destruct (Redis.get now (players r) c) as [pc |] eqn:Hpc; [| done].
    injection Hc0 as <-.
    exists p, pc. split; [done |]. split; [done |]. split; [done |].
    assert (∀ c', is_Some (zscore (queue r) c') → c' ∈ l1 ∨ c' = c ∨ c' ∈ l2) as Hin.
    { intros c' H. apply RedisFacts.elem_of_zrange_all in H.
      rewrite Hl, elem_of_app, elem_of_cons in H. tauto. }
    split.
    { apply RedisFacts.elem_of_zrange_all. rewrite Hl, elem_of_app, elem_of_cons. auto. }
    split; [done |].
    intros c' pc' Hq Hne Hc'. specialize (Hdiff c' pc' Hne Hc').
    destruct (Hin c' Hq) as [H | [-> | H]].
    + specialize (Hbefore _ _ H Hdiff). lia.
    + assert (pc' = pc) as -> by congruence. lia.
    + by apply (Hafter _ _ H Hdiff).
  - right. right. exists p. split; [done |].
    intros c' pc' Hq Hne Hc'. apply (Hscan c').
    + by apply RedisFacts.elem_of_zrange_all.
    + by apply Hdiff.
Qed.

End MatchExtras.

(** ** Connections *)

Module ConnectionExtras.

Import Redis Matchmaking Handlers Registration.

Lemma disconnect_registered (sid uid : string) (s : server) :
  socket_to_user s !! sid = Some uid → uid ≠ "" →
  disconnect sid s
    = mkServer (remove_from_queue uid (redis s)).1 (delete uid (connected_users s))
        (delete sid (socket_to_user s)) (last_sync_timestamps s).
Proof. intros Hsid Hne. unfold disconnect. by rewrite Hsid, decide_False. Qed.

(** X9: [register_user] refuses a payload whose user_id or username is
    missing or empty: it sends one error to the sender and changes nothing.
    Otherwise it maps the socket to the identity and the identity to the
    socket, name and rating (1000 when none is given), touches nothing else,
    and confirms to the sender. *)
Theorem register_user_effect (now : Z) (sid : string) (uid uname : option string)
    (elo : option Z) (s : server) :
  let '(s', sent) := register_user now sid uid uname elo s in
  redis s' = redis s ∧ last_sync_timestamps s' = last_sync_timestamps s ∧
  match uid, uname with
  | Some u, Some n =>
      if decide (u = "" ∨ n = "") then
        s' = s ∧ sent = [registration_error "Missing user_id or username" sid]
      else
        socket_to_user s' !! sid = Some u ∧
        connected_users s' !! u = Some (mkUserInfo sid n (default 1000 elo) now) ∧
        delete sid (socket_to_user s') = delete sid (socket_to_user s) ∧
        delete u (connected_users s') = delete u (connected_users s) ∧
        sent = [user_registered u n "User registered successfully" sid]
  | _, _ => s' = s ∧ sent = [registration_error "Missing user_id or username" sid]
  end.
Proof.
  unfold register_user, missing.
  destruct uid as [u |], uname as [n |]; simpl; try done.
  - destruct (decide (u = "" ∨ n = "")) as [[-> | ->] | Hne].
    + done.
    + by rewrite orb_true_r.
    + rewrite (bool_decide_eq_false_2 (u = "")) by tauto.
      rewrite (bool_decide_eq_false_2 (n = "")) by tauto. simpl.
      rewrite !lookup_insert_eq, !delete_insert_eq. done.
  - by destruct (bool_decide (u = "")).
Qed.

(** X10: registering and disconnecting is a round trip for a new socket and
    a new identity: when the socket and the identity are in neither map and
    the identity has no queue entry or player record, [disconnect] after
    [register_user] gives back the state as it was. *)
Theorem register_then_disconnect (now : Z) (sid uid uname : string) (elo : option Z)
    (s : server) :
  uid ≠ "" → uname ≠ "" →
  online (redis s) = true →
  socket_to_user s !! sid = None → connected_users s !! uid = None →
  queue (redis s) !! uid = None → players (redis s) !! uid = None →
  disconnect sid (register_user now sid (Some uid) (Some uname) elo s).1 = s.
Proof.
  intros Hu Hn Hup Hsid Huid Hq Hp. unfold register_user, missing. simpl.
  rewrite (bool_decide_eq_false_2 (uid = "")) by done.
  rewrite (bool_decide_eq_false_2 (uname = "")) by done. simpl.
  unfold disconnect. simpl. rewrite lookup_insert_eq, decide_False by done.
  unfold remove_from_queue. rewrite Hup. simpl.
  unfold zrem, del, set_queue, set_players. simpl.
  rewrite !delete_insert_id by done. rewrite !delete_id by done.
  destruct s as [[] ? ? ?]. simpl in *. by subst.
Qed.

Lemma register_then_disconnect_witness :
  disconnect "sidC"
    (register_user 9000000 "sidC" (Some "carol") (Some "Carol") None Scenario.battle).1
  = Scenario.battle.
Proof.
  apply (register_then_disconnect 9000000 "sidC" "carol" "Carol" None Scenario.battle);
    (discriminate || (vm_compute; reflexivity)).
Defined.

(** X11: a stale socket takes the live connection with it.  When an identity
    registers on a socket and then again on a second socket, the later
    [disconnect] of the first socket removes the identity from
    [connected_users] and from the queue, although the second socket is still
    mapped to it. *)
Theorem stale_socket_disconnect (t1 t2 : Z) (sid1 sid2 uid uname : string)
    (elo : option Z) (s : server) :
  uid ≠ "" → uname ≠ "" → sid1 ≠ sid2 →
  online (redis s) = true →
  let s1 := (register_user t1 sid1 (Some uid) (Some uname) elo s).1 in
  let s2 := (register_user t2 sid2 (Some uid) (Some uname) elo s1).1 in
  let s3 := disconnect sid1 s2 in
  socket_to_user s2 !! sid2 = Some uid ∧
  connected_users s2 !! uid = Some (mkUserInfo sid2 uname (default 1000 elo) t2) ∧
  socket_to_user s3 !! sid2 = Some uid ∧
  connected_users s3 !! uid = None ∧
  zscore (queue (redis s3)) uid = None.
Proof.
  intros Hu Hn Hsid Hup. simpl. unfold register_user, missing. simpl.
  rewrite (bool_decide_eq_false_2 (uid = "")) by done.
  rewrite (bool_decide_eq_false_2 (uname = "")) by done. simpl.
  assert (sid2 ≠ sid1) as Hsid' by congruence.
  rewrite (disconnect_registered sid1 uid);
    [| simpl; by rewrite lookup_insert_ne, lookup_insert_eq | done].
  simpl. unfold remove_from_queue. rewrite Hup. simpl.
  rewrite !lookup_insert_eq. rewrite lookup_delete_ne, lookup_insert_eq by done.
  rewrite lookup_delete_eq. unfold zscore, zrem. by rewrite lookup_delete_eq.
Qed.

Lemma stale_socket_disconnect_witness :
  let s1 := (register_user 1000 "sid1" (Some "alice") (Some "Alice") None
               Scenario.battle).1 in
  let s2 := (register_user 2000 "sid2" (Some "alice") (Some "Alice") None s1).1 in
  let s3 := disconnect "sid1" s2 in
  socket_to_user s2 !! "sid2" = Some "alice" ∧
  connected_users s2 !! "alice" = Some (mkUserInfo "sid2" "Alice" (default 1000 None) 2000) ∧
  socket_to_user s3 !! "sid2" = Some "alice" ∧
  connected_users s3 !! "alice" = None ∧
  zscore (queue (redis s3)) "alice" = None.
Proof.
  apply (stale_socket_disconnect 1000 2000 "sid1" "sid2" "alice" "Alice" None
           Scenario.battle); (discriminate || reflexivity).
Defined.

(** X12: [disconnect] is idempotent, and a socket that is not registered (or
    is registered to the empty identity) is left alone: a second
    [disconnect] of the same socket changes nothing. *)
Theorem disconnect_twice (sid : string) (s : server) :
  disconnect sid (disconnect sid s) = disconnect sid s ∧
  (socket_to_user s !! sid = None → disconnect sid s = s).
Proof.
  split; [| intros H; unfold disconnect; by rewrite H].
  unfold disconnect at 2 3.
  destruct (socket_to_user s !! sid) as [uid |] eqn:Hsid.
  - destruct (decide (uid = "")).
    + unfold disconnect. rewrite Hsid. by rewrite decide_True.
    + unfold disconnect. simpl. by rewrite lookup_delete_eq.
  - unfold disconnect. by rewrite Hsid.
Qed.

End ConnectionExtras.

(** ** Handlers: what they send and what they leave alone *)

Module HandlerExtras.

Import Redis Matchmaking Handlers HandlerSpec Registration.

(** X13: over [RedisMatchmakingQueue], [submit_code] never gets as far as
    running the code.  Over any sequence of [submit_code] events the state of
    the server is at the end what it was at the start, and what is sent is
    one error per event, in order, each to the sender of its event alone:
    "Battle room not found" for a room that cannot be read, and the text of
    the [AttributeError] for a room that can, whatever its status.  No result
    is recorded and no room is completed through the handler. *)
Theorem submit_code_never_runs (events : list submit_event) (s : server) :
  let '(s', sent) := submit_all events s in
  s' = s ∧ Forall2 (answered s) events sent.
Proof.
  induction events as [| e rest IH]; simpl; [by split; [| constructor] |].
  destruct (submit_all rest s) as [s2 sent2] eqn:Hrest.
  assert (Hstep : ∃ out,
            submit_code (submit_at e) (submit_sid e) (submit_user e) (submit_room e)
              (submit_text e) s = (s, [out]) ∧ answered s e out).
  { unfold submit_code, answered. destruct (online (redis s)).
    - destruct (get_battle_room _ _ _); eexists; (split; [reflexivity |]); eauto.
    - eexists. split; [reflexivity |]. eexists. split; [reflexivity | done]. }
  destruct Hstep as (out & -> & Hout). rewrite Hrest.
  destruct IH as [-> Hall]. split; [done |]. by constructor.
Qed.

Lemma sync_all_spaced (sid uid rid : string) (events : list sync_event) (s : server) :
  let '(s', sent) := sync_all sid uid rid events s in
  spaced 200 (last_sync s uid rid :: update_timestamps sent) ∧
  (length sent ≤ length events)%nat ∧
  Forall (fun e => ∃ code ts, e = opponent_code_update code uid ts rid sid) sent.
Proof.
  revert s. induction events as [| e rest IH]; intros s; simpl; [done |].
  assert (online (redis s) = false ∨
          get_battle_room (at_instant e) (redis s) rid = None ∨
          deduplicated s uid rid (sync_ts e) = true ∨
          ∃ b, online (redis s) = true ∧
               get_battle_room (at_instant e) (redis s) rid = Some b ∧
               deduplicated s uid rid (sync_ts e) = false) as Hcases.
  { destruct (online (redis s)); [| by left].
    destruct (get_battle_room _ (redis s) rid) as [b |]; [| by right; left].
    destruct (deduplicated s uid rid (sync_ts e)); [by right; right; left |].
    right. right. right. by exists b. }
  destruct Hcases as [H | [H | [H | (b & Hup & Hb & Hkeep)]]].
  1-3: (pose proof (SyncFacts.sync_code_quiet (at_instant e) sid uid rid (sync_text e)
                      (sync_ts e) s) as Hq;
        destruct (sync_code _ sid uid rid _ _ s) as [s1 sent1];
        destruct Hq as (-> & _ & Hlast); [tauto |];
        specialize (IH s1); destruct (sync_all sid uid rid rest s1) as [s2 sent2];
        destruct IH as (Hsp & Hlen & Hall); rewrite Hlast in Hsp; simpl;
        split; [done |]; split; [lia | done]).
  pose proof (SyncFacts.sync_code_applied (at_instant e) sid uid rid (sync_text e)
                (sync_ts e) s b Hup Hb Hkeep) as Ha.
  destruct (sync_code _ sid uid rid _ _ s) as [s1 sent1].
  destruct Ha as (-> & _ & Hlast).
  specialize (IH s1). destruct (sync_all sid uid rid rest s1) as [s2 sent2].
  destruct IH as (Hsp & Hlen & Hall). rewrite Hlast in Hsp. simpl.
  split; [| split; [lia | constructor; eauto]].
  split; [| done].
  unfold deduplicated in Hkeep. apply andb_false_iff in Hkeep as [Hk | Hk].
  - left. by apply Z.ltb_ge.
  - right. by apply Z.ltb_ge.
Qed.

(** X14: the server limits the rate of code updates.  Over any sequence of
    [sync_code] events of one participant of a room, the timestamps of the
    updates that are sent are spaced: each one is either not positive (no
    timestamp was given) or at least 200 more than the timestamp of the
    update sent before it.  No event is sent twice, and every update goes to
    the room, the sender excepted. *)
Theorem sync_updates_spaced (sid uid rid : string) (events : list sync_event)
    (s : server) :
  let '(s', sent) := sync_all sid uid rid events s in
  spaced 200 (update_timestamps sent) ∧
  (length sent ≤ length events)%nat ∧
  Forall (fun e => ∃ code ts, e = opponent_code_update code uid ts rid sid) sent.
Proof.
  pose proof (sync_all_spaced sid uid rid events s) as H.
  destruct (sync_all sid uid rid events s) as [s' sent].
  destruct H as (Hsp & Hlen & Hall). split; [| done].
  simpl in Hsp. destruct (update_timestamps sent); [done |]. by destruct Hsp.
Qed.

(** A run: timestamps 1000, 1100, 1150, 1300, 1600 after a kept 1000. *)
Example sync_updates_run :
  update_timestamps
    (sync_all "sidA" "alice" Scenario.battle_room_id
       [mkSync 5100000 "ab" 1100; mkSync 5150000 "abc" 1150;
        mkSync 5300000 "abcd" 1300; mkSync 5600000 "abcde" 1600]
       Scenario.battle_synced).2
  = [1300; 1600].
Proof. vm_compute. reflexivity. Qed.

End HandlerExtras.

(** ** The validator: what it accepts and what it rejects *)

Module ValidatorExtras.

Import Validator ValidatorSpec.

Lemma walk_levels_sound (fuel : nat) (level : list node) (n : node) :
  n ∈ walk_levels fuel level → ∃ root, root ∈ level ∧ subnode n root.
Proof.
  revert level. induction fuel as [| fuel IH]; intros level Hn; simpl in Hn.
  - exists n. split; [done | constructor].
  - destruct level as [| x level]; [by apply elem_of_nil in Hn |].
    apply elem_of_app in Hn as [Hn | Hn].
    + exists n. split; [done | constructor].
    + apply IH in Hn as (c & Hc & Hsub).
      apply ValidatorFacts.elem_of_next_level in Hc as (p & Hp & Hc).
      exists p. split; [done |]. by apply (subnode_child n p c).
Qed.

(** The walk visits the nodes of the tree and nothing else. *)
Lemma elem_of_walk (tree n : node) : n ∈ walk tree ↔ subnode n tree.
Proof.
  split; [| apply ValidatorFacts.walk_complete].
  intros Hn. apply walk_levels_sound in Hn as (root & Hroot & Hsub).
  by apply list_elem_of_singleton in Hroot as ->.
Qed.

(** X15: the validator fails closed on a syntax error, and it accepts a
    program that parses exactly when no node of its tree, at any depth,
    triggers one of the tests of the loop. *)
Theorem validator_accepts_iff :
  (∀ e, (check_parsed (inr e)).1 = false) ∧
  (∀ tree, (check_parsed (inl tree)).1 = true
           ↔ ∀ n, subnode n tree → check_node n = None).
Proof.
  split; [done |]. intros tree. simpl. rewrite ValidatorFacts.check_nodes_accepts.
  split; intros H n Hn; apply H; by apply elem_of_walk.
Qed.

Lemma first_component_no_dot (m : string) : no_dot m = true → first_component m = m.
Proof.
  induction m as [| c m IH]; [done |]. simpl.
  destruct (Ascii.eqb c "."); [done |]. simpl. intros H. by rewrite IH.
Qed.

Lemma first_component_dotted (m rest : string) :
  no_dot m = true → first_component (m +:+ "." +:+ rest) = m.
Proof.
  induction m as [| c m IH]; [done |]. simpl.
  destruct (Ascii.eqb c "."); [done |]. simpl. intros H.
  unfold String.app in *. simpl. by rewrite IH.
Qed.

Lemma forbidden_no_dot (m : string) : m ∈ FORBIDDEN_IMPORTS → no_dot m = true.
Proof.
  intros H. unfold FORBIDDEN_IMPORTS in H.
  repeat (apply elem_of_cons in H as [-> | H]; [reflexivity |]).
  by apply elem_of_nil in H.
Qed.

Lemma first_component_within (m name : string) :
  m ∈ FORBIDDEN_IMPORTS → within_module m name → first_component name = m.
Proof.
  intros Hm [-> | [rest ->]].
  - by apply first_component_no_dot, forbidden_no_dot.
  - by apply first_component_dotted, forbidden_no_dot.
Qed.

Lemma check_aliases_triggers (names : list alias) (a : alias) :
  a ∈ names → first_component (alias_name a) ∈ FORBIDDEN_IMPORTS →
  is_Some (check_aliases names).
Proof.
  intros Ha Hm. induction names as [| b names IH]; [by apply elem_of_nil in Ha |].
  simpl. destruct (mem (first_component (alias_name b)) FORBIDDEN_IMPORTS) eqn:Hb;
    [eauto |].
  apply elem_of_cons in Ha as [-> | Ha]; [| by apply IH].
  unfold mem in Hb. by apply bool_decide_eq_false in Hb.
Qed.

(** X16: what the validator rejects, wherever it stands in the program (at
    top level, in a function body, in an expression): an [import] of a
    forbidden module or of anything below it, under any alias; a
    [from ... import] from a forbidden module or from anything below it; a
    call of the name [__import__], [eval], [exec], [compile] or [open]; a
    call of an attribute [__import__] or [__loader__] of anything. *)
Theorem forbidden_constructs_rejected (tree : node) :
  (∀ names a m, subnode (Import names) tree → a ∈ names →
     m ∈ FORBIDDEN_IMPORTS → within_module m (alias_name a) →
     (check_parsed (inl tree)).1 = false) ∧
  (∀ from names level m, subnode (ImportFrom (Some from) names level) tree →
     m ∈ FORBIDDEN_IMPORTS → within_module m from →
     (check_parsed (inl tree)).1 = false) ∧
  (∀ f args keywords, subnode (Call (Name f) args keywords) tree →
     f ∈ ["__import__"; "eval"; "exec"; "compile"; "open"] →
     (check_parsed (inl tree)).1 = false) ∧
  (∀ value attr args keywords,
     subnode (Call (Attribute value attr) args keywords) tree →
     attr ∈ ["__import__"; "__loader__"] →
     (check_parsed (inl tree)).1 = false).
Proof.
  split; [| split; [| split]].
  - intros names a m Hsub Ha Hm Hname.
    apply (ValidatorFacts.triggering_node_rejected tree _ Hsub). simpl.
    apply (check_aliases_triggers names a Ha).
    by rewrite (first_component_within m).
  - intros from names level m Hsub Hm Hname.
    apply (ValidatorFacts.triggering_node_rejected tree _ Hsub). simpl.
    assert (from ≠ "") as Hne.
    { intros Hfrom. destruct Hname as [Heq | [rest Hrest]].
      - rewrite <- Heq, Hfrom in Hm. unfold FORBIDDEN_IMPORTS in Hm.
        repeat (apply elem_of_cons in Hm as [Hm | Hm]; [discriminate Hm |]).
        by apply elem_of_nil in Hm.
      - rewrite Hfrom in Hrest. destruct m; discriminate Hrest. }
    rewrite decide_False by done. rewrite (first_component_within m) by done.
    unfold mem. rewrite bool_decide_eq_true_2 by done. eauto.
  - intros f args keywords Hsub Hf.
    apply (ValidatorFacts.triggering_node_rejected tree _ Hsub). simpl.
    unfold mem. rewrite bool_decide_eq_true_2 by done. eauto.
  - intros value attr args keywords Hsub Hattr.
    apply (ValidatorFacts.triggering_node_rejected tree _ Hsub). simpl.
    unfold mem. rewrite bool_decide_eq_true_2 by done. eauto.
Qed.

Lemma forbidden_constructs_rejected_witness :
  (check_parsed (inl nested_import)).1 = false.
Proof.
  apply (proj1 (forbidden_constructs_rejected nested_import)
           [mkAlias "os.path" (Some "p")] (mkAlias "os.path" (Some "p")) "os").
  - eapply subnode_child; [| eapply subnode_child; [| apply subnode_here]].
    + simpl. apply elem_of_cons. by left.
    + simpl. apply elem_of_cons. right. apply elem_of_cons. by left.
  - apply elem_of_cons. by left.
  - apply elem_of_cons. by left.
  - right. by exists "path".
Defined.

Section Gate.
Variable ast_parse : string → node + string.

(** X17: a program the validator rejects is never run.  Whatever the rest
    of [execute_code] would do with it, [execute_code] returns the same
    failed result: no success, no test passed, every given test case counted,
    no test record, and the validator's message as error. *)
Theorem rejected_code_is_not_run
    (rest rest' : string → list json → string → Z → Sandbox.ExecutionResult)
    (code : string) (cases : list json) (entry : string) (timeout : Z) :
  (check_forbidden_imports_ast ast_parse code).1 = false →
  Sandbox.execute_code ast_parse rest code cases entry timeout
    = Sandbox.execute_code ast_parse rest' code cases entry timeout ∧
  Sandbox.execute_code ast_parse rest code cases entry timeout
    = Sandbox.mkExecutionResult false 0 (Z.of_nat (length cases)) [] ""
        (check_forbidden_imports_ast ast_parse code).2 0.
Proof.
  intros Hrej. unfold Sandbox.execute_code.
  destruct (check_forbidden_imports_ast ast_parse code) as [safe msg].
  simpl in Hrej. by subst safe.
Qed.

End Gate.

Lemma rejected_code_is_not_run_witness :
  Sandbox.execute_code parse_nested_import Scenario.all_pass
    "def f(): import os.path as p" [JNum 1; JNum 2] "f" 5
  = Sandbox.execute_code parse_nested_import Scenario.none_pass
      "def f(): import os.path as p" [JNum 1; JNum 2] "f" 5 ∧
  Sandbox.execute_code parse_nested_import Scenario.all_pass
    "def f(): import os.path as p" [JNum 1; JNum 2] "f" 5
  = Sandbox.mkExecutionResult false 0 (Z.of_nat (length [JNum 1; JNum 2])) [] ""
      (check_forbidden_imports_ast parse_nested_import "def f(): import os.path as p").2 0.
Proof.
  apply (rejected_code_is_not_run parse_nested_import). vm_compute. reflexivity.
Defined.

End ValidatorExtras.

(** ** The Java executor: its check and its returns *)

Module JavaExtras.

Import JavaExecutor.

Lemma prefix_iff (pat s : string) :
  String.prefix pat s = true ↔ ∃ post, s = pat +:+ post.
Proof.
  revert pat. induction s as [| b s IH]; intros [| a pat]; cbn [String.prefix].
  - split; [by exists "" | done].
  - split; [done | by intros [post H]].
  - split; [by exists (String b s) | done].
  - destruct (ascii_dec a b) as [-> | Hne].
    + etrans; [apply IH |]. split; intros [post H]; exists post.
      * unfold String.app in *. simpl. by rewrite H.
      * unfold String.app in *. simpl in H. by injection H.
    + split; [done |]. intros [post H]. unfold String.app in H. simpl in H.
      injection H as H _. congruence.
Qed.

(** [contains] is the substring test. *)
Lemma contains_iff (pat s : string) :
  contains pat s = true ↔ ∃ pre post, s = pre +:+ pat +:+ post.
Proof.
  induction s as [| b s IH].
  - cbn [contains]. rewrite orb_false_r, prefix_iff. split.
    + intros [post H]. by exists "", post.
    + intros (pre & post & H). destruct pre; [by exists post |].
      unfold String.app in H. discriminate H.
  - cbn [contains]. rewrite orb_true_iff, prefix_iff, IH. split.
    + intros [[post H] | (pre & post & H)].
      * by exists "", post.
      * exists (String b pre), post. unfold String.app in *. simpl. by rewrite H.
    + intros (pre & post & H). destruct pre as [| c pre].
      * left. by exists post.
      * right. exists pre, post. unfold String.app in *. simpl in H.
        by injection H.
Qed.

Lemma check_forbidden_in_iff (forbidden : list string) (code : string) :
  (check_forbidden_in forbidden code).1 = false
  ↔ ∃ f, f ∈ forbidden ∧ contains f code = true.
Proof.
  induction forbidden as [| f rest IH]; simpl.
  - split; [done |]. intros (f & Hf & _). by apply elem_of_nil in Hf.
  - destruct (contains f code) eqn:Hf; simpl.
    + split; [| done]. intros _. exists f. split; [| done].
      apply elem_of_cons. by left.
    + rewrite IH. split.
      * intros (g & Hg & Hc). exists g. split; [| done]. apply elem_of_cons. by right.
      * intros (g & Hg & Hc). apply elem_of_cons in Hg as [-> | Hg]; [congruence |].
        by exists g.
Qed.

(** X18: [check_forbidden_imports_java] rejects a program exactly when one of
    the six forbidden names occurs somewhere in its text, be it an import, a
    comment or a string; the message names a forbidden name. *)
Theorem java_check_iff_substring (code : string) :
  ((check_forbidden_imports_java code).1 = false
   ↔ ∃ f pre post, f ∈ FORBIDDEN ∧ code = pre +:+ f +:+ post) ∧
  ((check_forbidden_imports_java code).1 = true
   → (check_forbidden_imports_java code).2 = "").
Proof.
  split.
  - unfold check_forbidden_imports_java. rewrite check_forbidden_in_iff. split.
    + intros (f & Hf & Hc). apply contains_iff in Hc as (pre & post & H). eauto.
    + intros (f & pre & post & Hf & H). exists f. split; [done |].
      apply contains_iff. eauto.
  - unfold check_forbidden_imports_java. generalize FORBIDDEN.
    intros l. induction l as [| f rest IH]; simpl; [done |].
    destruct (contains f code); [done | apply IH].
Qed.

Ltac returns_done := repeat split; eauto; simpl; lia.

Section Environment.
Variable json_dumps : list json → string.
Variable json_loads : string → json + string.
Variable javac : wrapper → Subprocess.child.
Variable java : wrapper → Subprocess.child.

Let execute := execute_java_code json_dumps json_loads javac java.

(** X19: the returns of [execute_java_code].  A return without success
    always reports zero passed tests out of the number of test cases given,
    no test results, and an error text; a return with success has no error
    text.  A program with a forbidden name starts no process, and the
    virtual machine is started only after a compilation that ended by itself;
    at most two processes are started. *)
Theorem execute_java_code_returns (code : string) (test_cases : list json)
    (cls : string) (timeout : Z) :
  let '(res, fates) := execute code test_cases cls timeout in
  (if success res
   then error res = None ∧ is_Some (test_results res) ∧
        fates = [Subprocess.ExitedByItself; Subprocess.ExitedByItself]
   else passed_tests res = JNum 0 ∧
        total_tests res = JNum (Z.of_nat (length test_cases)) ∧
        test_results res = None ∧ is_Some (error res)) ∧
  (length fates ≤ 2)%nat ∧
  (if (check_forbidden_imports_java code).1
   then match fates with
        | [] => False
        | [_] => True
        | first :: _ => first = Subprocess.ExitedByItself
        end
   else fates = []).
Proof.
  unfold execute, execute_java_code.
  destruct (check_forbidden_imports_java code) as [[|] msg]; simpl;
    [| by returns_done].
  destruct (javac _) as [e | d rc out err |]; simpl;
    [by returns_done | | by returns_done].
  destruct (d <=? 10 * Redis.second); simpl; [| by returns_done].
  destruct (rc =? 0); simpl; [| by returns_done].
  destruct (java _) as [e' | d' rc' out' err' |]; simpl;
    [by returns_done | | by returns_done].
  destruct (d' <=? timeout * Redis.second); simpl; [| by returns_done].
  destruct (json_loads out') as [doc | e'']; simpl; [| by returns_done].
  destruct (subscript doc "passed"), (subscript doc "total"),
    (subscript doc "test_results"); simpl; by returns_done.
Qed.

(** X20: the counts of a successful return are those of the program's
    output, unchecked.  When the run ends in time, whatever its exit code,
    and its output parses to an object with the three keys, the result
    reports success with the object's "passed" and "total" as they are, be
    they numbers or not, and whatever the number of test cases given. *)
Theorem execute_java_code_trusts_output (code : string) (test_cases : list json)
    (cls : string) (timeout : Z) (d rc : Z) (out err out0 err0 : string)
    (doc p t tr : json) :
  let w := build_java_test_wrapper json_dumps code test_cases cls in
  (check_forbidden_imports_java code).1 = true →
  Subprocess.run (javac w) 10
    = (Subprocess.Completed 0 out0 err0, Subprocess.ExitedByItself) →
  java w = Subprocess.Exits d rc out err → d ≤ timeout * Redis.second →
  json_loads out = inl doc →
  subscript doc "passed" = inl p → subscript doc "total" = inl t →
  subscript doc "test_results" = inl tr →
  (execute code test_cases cls timeout).1 = mkResult true p t (Some tr) None.
Proof.
  simpl. intros Hsafe Hjavac Hjava Hd Hdoc Hp Ht Htr.
  unfold execute, execute_java_code.
  destruct (check_forbidden_imports_java code) as [safe msg]. simpl in Hsafe.
  subst safe. simpl. rewrite Hjavac. simpl. rewrite Hjava. simpl.
  rewrite (proj2 (Z.leb_le _ _) Hd). by rewrite Hdoc, Hp, Ht, Htr.
Qed.

End Environment.

Lemma execute_java_code_trusts_output_witness :
  (execute_java_code Scenario.json_dumps Demo.inflated_json_loads Scenario.javac
     Demo.failing_java "class Solution {}" [JNum 1; JNum 2; JNum 3; JNum 4; JNum 5]
     "Solution" 5).1
  = mkResult true (JNum 99) (JNum 5) (Some (JArr [])) None.
Proof.
  apply (execute_java_code_trusts_output Scenario.json_dumps Demo.inflated_json_loads
           Scenario.javac Demo.failing_java "class Solution {}"
           [JNum 1; JNum 2; JNum 3; JNum 4; JNum 5] "Solution" 5
           100000 1 "report" "" "" ""
           (JObj [("passed", JNum 99); ("total", JNum 5); ("test_results", JArr [])]));
    (reflexivity || (vm_compute; congruence)).
Defined.

End JavaExtras.

(** ** The log endpoint *)

Module LogExtras.

Import Logs.

Lemma slice_from_suffix {A : Type} (l : list A) (start : Z) :
  ∃ skipped, l = skipped ++ slice_from l start.
Proof.
  unfold slice_from. destruct (start <? 0).
  - eexists. symmetry. apply take_drop.
  - eexists. symmetry. apply take_drop.
Qed.

Lemma length_slice_from {A : Type} (l : list A) (start : Z) :
  Z.of_nat (length (slice_from l start))
  = if start <? 0 then Z.min (- start) (Z.of_nat (length l))
    else Z.max 0 (Z.of_nat (length l) - start).
Proof.
  unfold slice_from. destruct (start <? 0) eqn:H; rewrite length_drop.
  - apply Z.ltb_lt in H. lia.
  - apply Z.ltb_ge in H. lia.
Qed.

Section Parser.
Variable json_loads : string → json + string.
Variable str_strip : string → string.

(** X21: [recent_logs].  With no log file the answer is an empty list and
    the error "No logs found".  Otherwise the total is the number of lines of
    the file and the entries are those of a final segment of the file, in
    order, one per line: the last [limit] lines (all of them if there are
    fewer) for a positive limit, every line of the file for limit 0, and all
    but the first [-limit] lines for a negative limit. *)
Theorem recent_logs_segment (file : option (list string)) (limit : Z) :
  match file with
  | None =>
      recent_logs json_loads str_strip file limit = mkResponse [] (Some "No logs found") None
  | Some lines =>
      let res := recent_logs json_loads str_strip file limit in
      let total := Z.of_nat (length lines) in
      log_total res = Some total ∧ log_error res = None ∧
      (∃ skipped kept, lines = skipped ++ kept ∧
         logs res = map (parse_line json_loads str_strip) kept) ∧
      Z.of_nat (length (logs res))
        = if 0 <? limit then Z.min limit total
          else if limit =? 0 then total
          else Z.max 0 (total + limit)
  end.
Proof.
  destruct file as [lines |]; [| done]. simpl.
  split; [done |]. split; [done |]. split.
  - destruct (slice_from_suffix lines (- limit)) as [skipped H]. eauto.
  - rewrite length_map, length_slice_from.
    destruct (0 <? limit) eqn:H1, (limit =? 0) eqn:H2, (- limit <? 0) eqn:H3; lia.
Qed.

End Parser.

End LogExtras.

(** ** The client *)

Module DebounceExtras.

Import Debounce.

Lemma sorted_le_head (t : Z) (l : list Z) :
  Sorted Z.le (t :: l) → Forall (Z.le t) l.
Proof.
  intros H. apply Sorted_StronglySorted in H; [| intros x y z; lia].
  by inversion H.
Qed.

Section Debounce.
Context {A : Type}.
Implicit Types (events : list (event A)) (pending : timer A).

Lemma debounce_run_app delay pending events1 events2 :
  run delay pending (events1 ++ events2)
  = let '(p1, invoked1) := run delay pending events1 in
    let '(p2, invoked2) := run delay p1 events2 in
    (p2, invoked1 ++ invoked2).
Proof.
  revert pending. induction events1 as [| e rest IH]; intros pending; simpl.
  - by destruct (run delay pending events2).
  - destruct (step delay pending e) as [p1 i1]. rewrite IH.
    destruct (run delay p1 rest) as [p2 i2].
    destruct (run delay p2 events2) as [p3 i3]. by rewrite app_assoc.
Qed.

(** With no timer pending and no call, nothing is invoked. *)
Lemma run_idle delay events :
  calls events = [] → run delay None events = (None, []).
Proof.
  induction events as [| [t a | t] rest IH]; simpl; [done | done |].
  intros H. by rewrite IH.
Qed.

Lemma first_call_later t events t1 a1 cs :
  in_order (Tick t :: events) → calls events = (t1, a1) :: cs → t ≤ t1.
Proof.
  unfold in_order. rewrite fmap_cons. intros H%sorted_le_head Hc.
  assert (Hin : (t1, a1) ∈ calls events) by (rewrite Hc; left).
  apply list_elem_of_omap in Hin as ([t' a' | t'] & Hin & Heq); [| done].
  injection Heq as -> ->.
  rewrite Forall_forall in H. apply H, list_elem_of_fmap.
  by exists (Call t1 a1).
Qed.

Lemma in_order_tail e events : in_order (e :: events) → in_order events.
Proof. unfold in_order. rewrite fmap_cons. by inversion 1. Qed.

(** A burst, started with a timer pending that the first call of the burst
    comes before: at most one invocation, with the arguments of the last call
    (of the pending timer, if there is no call), when its timer is due. *)
Lemma run_burst delay events pending :
  in_order events → burst delay (calls events) →
  (∀ due a t1 a1 cs, pending = Some (due, a) → calls events = (t1, a1) :: cs → t1 < due) →
  match (run delay pending events).2 with
  | [] => True
  | [(t, args)] =>
      match last (calls events) with
      | Some (t0, a0) => args = a0 ∧ due_at delay t0 ≤ t
      | None => ∃ due, pending = Some (due, args) ∧ due ≤ t
      end
  | _ => False
  end.
Proof.
  revert pending. induction events as [| [t a | t] rest IH]; intros pending Ho Hb Hp.
  - done.
  - simpl in *. specialize (IH (Some (due_at delay t, a)) (in_order_tail _ _ Ho)).
    destruct (run delay (Some (due_at delay t, a)) rest) as [p2 inv] eqn:Hrun.
    simpl in *.
    assert (Hb' : burst delay (calls rest)) by (by inversion Hb).
    assert (Hfirst : ∀ due a' t1 a1 cs, Some (due_at delay t, a) = Some (due, a') →
              calls rest = (t1, a1) :: cs → t1 < due).
    { intros due a' t1 a1 cs [= <- <-] Hc. rewrite Hc in Hb.
      inversion Hb as [| ? ? _ Hhd]. inversion Hhd. simpl in *.
      unfold due_at. lia. }
    specialize (IH Hb' Hfirst).
    destruct inv as [| [t' args] [| ? ?]]; [done | | done].
    destruct (calls rest) as [| c cs] eqn:Hc.
    + simpl in *. destruct IH as (due & [= <- <-] & Hle). done.
    + rewrite last_cons. destruct (last (c :: cs)) as [[t0 a0] |] eqn:Hl; [done |].
      by apply last_None in Hl.
  - simpl in *. destruct pending as [[due a] |].
    + destruct (due <=? t) eqn:Hdue.
      * apply Z.leb_le in Hdue.
        destruct (calls rest) as [| [t1 a1] cs] eqn:Hc.
        -- rewrite (run_idle delay rest Hc). simpl. eauto.
        -- pose proof (first_call_later _ _ _ _ _ Ho Hc).
           specialize (Hp due a t1 a1 cs eq_refl eq_refl). lia.
      * specialize (IH (Some (due, a)) (in_order_tail _ _ Ho) Hb Hp).
        by destruct (run delay (Some (due, a)) rest) as [p2 inv].
    + specialize (IH None (in_order_tail _ _ Ho) Hb).
      destruct (run delay None rest) as [p2 inv]. simpl in *.
      apply IH. intros; done.
Qed.

(** A timer that is pending runs at the first tick at or after its due
    instant, if no call comes first. *)
Lemma run_fires delay events due a t :
  calls events = [] → Tick t ∈ events → due ≤ t →
  (run delay (Some (due, a)) events).2 ≠ [].
Proof.
  induction events as [| [t1 a1 | t1] rest IH]; simpl; intros Hc Hin Hle.
  - by apply elem_of_nil in Hin.
  - done.
  - destruct (due <=? t1) eqn:Hdue.
    + by destruct (run delay None rest).
    + apply elem_of_cons in Hin as [[= ->] | Hin]; [apply Z.leb_gt in Hdue; lia |].
      specialize (IH Hc Hin Hle).
      by destruct (run delay (Some (due, a)) rest).
Qed.

(** X22: what [debounce] is for.  Over a burst of calls, each less than
    [delay] after the one before, the function is invoked at most once: with
    the arguments of the last call, and not before [delay] has passed since
    that call.  It is invoked if the event loop runs the timers at or after
    that instant with no call in between. *)
Theorem debounce_burst (delay : Z) (events : list (event A)) :
  in_order events → burst delay (calls events) →
  let invoked := (run delay None events).2 in
  (length invoked ≤ 1)%nat ∧
  (∀ t args, (t, args) ∈ invoked →
     ∃ t0, last (calls events) = Some (t0, args) ∧ t0 + delay ≤ t) ∧
  (∀ before t0 args after t,
     events = before ++ Call t0 args :: after → calls after = [] →
     Tick t ∈ after → t0 + Z.max 0 delay ≤ t → invoked ≠ []).
Proof.
  intros Ho Hb. simpl.
  pose proof (run_burst delay events None Ho Hb) as H.
  split; [| split].
  - destruct (run delay None events).2 as [| [t args] [| ? ?]]; simpl in *;
      [lia | lia |]. exfalso. apply H. intros; done.
  - intros t args Hin.
    destruct (run delay None events).2 as [| [t' args'] [| ? ?]]; simpl in *.
    + by apply elem_of_nil in Hin.
    + apply list_elem_of_singleton in Hin as [= -> ->].
      destruct (last (calls events)) as [[t0 a0] |].
      * destruct H as [-> Hle]; [intros; done |]. exists t0. split; [done |].
        unfold due_at in Hle. lia.
      * destruct H as (due & ? & _); [intros; done | done].
    + exfalso. apply H. intros; done.
  - intros before t0 args after t -> Hc Hin Hle.
    rewrite debounce_run_app. destruct (run delay None before) as [p1 i1]. simpl.
    pose proof (run_fires delay after (due_at delay t0) args t Hc Hin Hle) as Hf.
    destruct (run delay (Some (due_at delay t0, args)) after) as [p2 i2].
    simpl in *. intros Happ. apply app_eq_nil in Happ as [_ ->]. done.
Qed.

End Debounce.

Lemma debounce_burst_witness :
  let events := [Call 0 "p"; Tick 200; Call 400 "pa"; Call 600 "pal"; Tick 1000;
                 Tick 1100; Tick 1700] in
  (run 500 None events).2 = [(1100, "pal")] ∧
  (length (run 500 None events).2 ≤ 1)%nat.
Proof.
  split; [reflexivity |].
  refine (proj1 (debounce_burst 500
    [Call 0 "p"; Tick 200; Call 400 "pa"; Call 600 "pal"; Tick 1000;
     Tick 1100; Tick 1700] _ _)).
  - unfold in_order. simpl. repeat constructor; lia.
  - unfold burst. simpl. repeat constructor; simpl; lia.
Defined.

End DebounceExtras.

Module AppExtras.

Import App.

Lemma client_run_app (events1 events2 : list event) (c : client) :
  run (events1 ++ events2) c
  = let '(c1, sent1) := run events1 c in
    let '(c2, sent2) := run events2 c1 in
    (c2, sent1 ++ sent2).
Proof.
  revert c. induction events1 as [| e rest IH]; intros c; simpl.
  - by destruct (run events2 c).
  - destruct (step e c) as [c1 s1]. rewrite IH.
    destruct (run rest c1) as [c2 s2]. destruct (run events2 c2) as [c3 s3].
    by rewrite app_assoc.
Qed.

Lemma handle_no_sync act a : Forall (fun e => is_sync e = false) (handle act a).2.
Proof.
  destruct act; simpl; repeat case_match; simpl; repeat constructor.
Qed.

Lemma step_no_sync e c : Forall (fun e => is_sync e = false) (step e c).2.
Proof.
  unfold step. destruct e as [m | act | now]; simpl.
  - constructor.
  - pose proof (handle_no_sync act (shown c)) as H.
    destruct (handle act (shown c)) as [a sent]. simpl in H.
    destruct act; simpl; try done. by rewrite app_nil_r.
  - destruct (timeoutId c) as [[due text] |]; simpl; [| constructor].
    destruct (due <=? now); simpl; constructor.
Qed.


(** X23: the client never sends [sync_code].  [debouncedSyncCode] is the
    function made in the first render, whose [roomId] is [null]: whatever the
    user types, whatever the server sends (a match included) and whenever the
    timers run, from any state of the component, no [sync_code] event is
    sent. *)
Theorem client_never_syncs (events : list event) (c : client) :
  Forall (fun e => is_sync e = false) (run events c).2.
Proof.
  revert c. induction events as [| e rest IH]; intros c; simpl; [constructor |].
  pose proof (step_no_sync e c) as H1.
  destruct (step e c) as [c1 s1]. specialize (IH c1).
  destruct (run rest c1) as [c2 s2]. simpl in *.
  by apply Forall_app.
Qed.

Lemma step_userTestsPassed e c :
  identified e → userTestsPassed (shown c) = Some (JNum 0) →
  userTestsPassed (shown (step e c).1) = Some (JNum 0).
Proof.
  intros Hn H0. unfold step. destruct e as [m | act | now]; simpl.
  - destruct m; simpl in *; try done.
    + by destruct (prop data "queue_position").
    + repeat case_match; simpl; done.
    + destruct (prop data "user_id") as [[[| | | | |] |] |]; simpl; try done.
      all: destruct (prop data "passed_tests"); simpl; try done.
    + by destruct (prop data "code").
    + repeat case_match; simpl; done.
  - destruct act; simpl; repeat case_match; simplify_eq; simpl; done.
  - destruct (timeoutId c) as [[due text] |]; simpl; [| done].
    by destruct (due <=? now).
Qed.

Lemma run_userTestsPassed events c :
  Forall identified events → userTestsPassed (shown c) = Some (JNum 0) →
  userTestsPassed (shown (run events c).1) = Some (JNum 0).
Proof.
  revert c. induction events as [| e rest IH]; intros c Hn H0; simpl; [done |].
  inversion Hn as [| ? ? Hn1 Hn2]; subst.
  pose proof (step_userTestsPassed e c Hn1 H0) as H1.
  destruct (step e c) as [c1 s1]. specialize (IH c1 Hn2 H1).
  by destruct (run rest c1) as [c2 s2].
Qed.

(** X24: the client credits its own results to the opponent.  The
    [code_submission] listener is the one made in the first render, whose
    [userId] is [null]: after any events, a [code_submission] with a string
    [user_id], the client's own included, sets [opponentTestsPassed] to its
    [passed_tests], and [userTestsPassed] is still 0. *)
Theorem own_result_credited_to_opponent (events : list event) (data : value)
    (uid : string) (passed : value) :
  Forall identified events →
  prop data "user_id" = Some (Some (JStr uid)) →
  prop data "passed_tests" = Some passed →
  let c := (run (events ++ [received (on_code_submission data)]) mounted).1 in
  userTestsPassed (shown c) = Some (JNum 0) ∧ opponentTestsPassed (shown c) = passed.
Proof.
  intros Hn Hu Hp. simpl. rewrite client_run_app.
  pose proof (run_userTestsPassed events mounted Hn eq_refl) as H0.
  destruct (run events mounted) as [c1 s1]. simpl in *.
  unfold step. simpl. rewrite Hu, Hp. simpl. done.
Qed.

Lemma own_result_credited_to_opponent_witness :
  let events := [did (type_username "ann"); did (handleRegister 5);
                 received (on_match_found (Some (JObj
                   [("room_id", JStr "room_1");
                    ("challenge", JObj [("test_count", JNum 3)]);
                    ("opponent", JObj [("username", JStr "bob")])])))] in
  let data := Some (JObj [("user_id", JStr "user_5"); ("passed_tests", JNum 3)]) in
  let c := (run (events ++ [received (on_code_submission data)]) mounted).1 in
  userId (shown c) = Some "user_5" ∧
  userTestsPassed (shown c) = Some (JNum 0) ∧
  opponentTestsPassed (shown c) = Some (JNum 3).
Proof.
  split; [reflexivity |].
  apply (own_result_credited_to_opponent
    [did (type_username "ann"); did (handleRegister 5);
     received (on_match_found (Some (JObj
       [("room_id", JStr "room_1");
        ("challenge", JObj [("test_count", JNum 3)]);
        ("opponent", JObj [("username", JStr "bob")])])))]
    (Some (JObj [("user_id", JStr "user_5"); ("passed_tests", JNum 3)]))
    "user_5" (Some (JNum 3))).
  - repeat constructor.
  - reflexivity.
  - reflexivity.
Defined.

End AppExtras.

Module GuideExtras.

Import GuideEditor.

Lemma guide_in_order_tail e events : in_order (e :: events) → in_order events.
Proof. unfold in_order. rewrite fmap_cons. by inversion 1. Qed.

Lemma guide_in_order_head e events :
  in_order (e :: events) → Forall (fun e' => instant e ≤ instant e') events.
Proof.
  unfold in_order. rewrite fmap_cons.
  intros H. apply Sorted_StronglySorted in H; [| intros x y z; lia].
  inversion H as [| ? ? _ Hall]; subst.
  rewrite Forall_forall in Hall. apply Forall_forall. intros e' Hin.
  apply Hall, list_elem_of_fmap. by exists e'.
Qed.

(** The timestamps: [gap] apart, the first at least [gap] after [L]. *)
Lemma run_timestamps events r L :
  in_order events → Forall (fun e => L ≤ instant e) events →
  (∀ due c, debounceRef r = Some (due, c) → L + 300 ≤ due) →
  Sorted (fun s1 s2 => timestamp s1 + 300 ≤ timestamp s2) (run events r).2 ∧
  Forall (fun s => L + 300 ≤ timestamp s) (run events r).2.
Proof.
  revert r L. induction events as [| e rest IH]; intros r L Ho Hl Hr; simpl.
  - split; constructor.
  - inversion Hl as [| ? ? Hle Hl']; subst.
    pose proof (guide_in_order_tail _ _ Ho) as Ho'.
    pose proof (guide_in_order_head _ _ Ho) as Hh.
    destruct e as [now c | now socket | now]; simpl in *.
    + destruct (bool_decide (text c = lastSyncRef r)).
      * specialize (IH r L Ho' Hl' Hr). by destruct (run rest r).
      * specialize (IH (mkRefs (Some (now + 300, c)) (lastSyncRef r)) L Ho' Hl').
        destruct (run rest _) as [r2 s2]. simpl in *. apply IH.
        intros due c' [= <- <-]. lia.
    + destruct (debounceRef r) as [[due c] |] eqn:Hd.
      * destruct (due <=? now) eqn:Hdue.
        -- apply Z.leb_le in Hdue. specialize (Hr due c eq_refl).
           destruct (App.truthy (roomId c) && socket
                     && negb (bool_decide (text c = lastSyncRef r))).
           ++ specialize (IH (mkRefs None (text c)) now Ho' Hh).
              destruct (run rest _) as [r2 s2]. simpl in *.
              destruct IH as [IH1 IH2]; [done |]. split.
              ** constructor; [done |]. destruct s2; constructor.
                 inversion IH2; subst. simpl. lia.
              ** constructor; [simpl; lia |].
                 eapply Forall_impl; [exact IH2 |]. simpl. intros; lia.
           ++ specialize (IH (mkRefs None (lastSyncRef r)) L Ho' Hl').
              destruct (run rest _) as [r2 s2]. simpl in *.
              destruct IH as [IH1 IH2]; [by intros | by split].
        -- specialize (IH r L Ho' Hl'). destruct (run rest r). simpl in *.
           apply IH. intros due' c' Heq. rewrite Hd in Heq.
           by apply (Hr due' c').
      * specialize (IH r L Ho' Hl'). destruct (run rest r). simpl in *.
        apply IH. intros due' c' Heq. by rewrite Hd in Heq.
    + specialize (IH (mkRefs None (lastSyncRef r)) L Ho' Hl').
      destruct (run rest _) as [r2 s2]. simpl in *.
              destruct IH as [IH1 IH2]; [by intros | by split].
Qed.

(** The texts: each one sent differs from the one sent before it, the first
    from the text of [lastSyncRef]. *)
Lemma run_texts events r :
  Sorted (fun s1 s2 => code s1 = code s2 → code s1 = "") (run events r).2 ∧
  (∀ s rest, (run events r).2 = s :: rest →
     ∃ tx, code s = default "" tx ∧ tx ≠ lastSyncRef r).
Proof.
  revert r. induction events as [| e rest IH]; intros r; simpl.
  - split; [constructor | done].
  - destruct e as [now c | now socket | now]; simpl.
    + destruct (bool_decide (text c = lastSyncRef r)).
      * specialize (IH r). by destruct (run rest r).
      * specialize (IH (mkRefs (Some (now + 300, c)) (lastSyncRef r))).
        by destruct (run rest _).
    + destruct (debounceRef r) as [[due c] |] eqn:Hd.
      * destruct (due <=? now).
        -- destruct (App.truthy (roomId c) && socket) eqn:Hc; simpl.
           ++ destruct (bool_decide (text c = lastSyncRef r)) eqn:Hne; simpl.
              ** specialize (IH (mkRefs None (lastSyncRef r))).
                 by destruct (run rest _).
              ** apply bool_decide_eq_false in Hne.
                 specialize (IH (mkRefs None (text c))).
                 destruct (run rest _) as [r2 s2]. simpl in *.
                 destruct IH as [IH1 IH2]. split.
                 --- constructor; [done |]. destruct s2 as [| s s2]; constructor.
                     destruct (IH2 s s2 eq_refl) as (tx & Htx & Hdiff).
                     simpl. rewrite Htx. intros Heq.
                     destruct (text c) as [a |], tx as [b |]; simpl in *;
                       congruence.
                 --- intros s rest' [= <- <-]. by exists (text c).
           ++ specialize (IH (mkRefs None (lastSyncRef r))).
              by destruct (run rest _).
        -- specialize (IH r). by destruct (run rest r).
      * specialize (IH r). by destruct (run rest r).
    + specialize (IH (mkRefs None (lastSyncRef r))). by destruct (run rest _).
Qed.

Lemma origin_tail e events pending s :
  origin events pending s → origin (e :: events) pending s.
Proof.
  intros (now & c & [Hin | Hp] & H). 
  - exists now, c. split; [left; by right | done].
  - exists now, c. split; [by right | done].
Qed.

Lemma run_origin events r :
  (∀ due c, debounceRef r = Some (due, c) → ∃ now, due = now + 300) →
  Forall (origin events (debounceRef r)) (run events r).2.
Proof.
  revert r. induction events as [| e rest IH]; intros r Hr; simpl; [constructor |].
  destruct e as [now c | now socket | now]; simpl.
  - destruct (bool_decide (text c = lastSyncRef r)).
    + specialize (IH r Hr). destruct (run rest r). simpl in *.
      eapply Forall_impl; [exact IH |]. intros s. apply origin_tail.
    + specialize (IH (mkRefs (Some (now + 300, c)) (lastSyncRef r))).
      destruct (run rest _) as [r2 s2]. simpl in *.
      eapply Forall_impl; [apply IH; intros ? ? [= <- <-]; eauto |].
      intros s (now' & c' & [Hin | Hp] & H).
      * exists now', c'. split; [left; by right | done].
      * injection Hp as Hn <-. assert (now' = now) as -> by lia.
        exists now, c. split; [left; left | done].
  - destruct (debounceRef r) as [[due c] |] eqn:Hd.
    + destruct (due <=? now) eqn:Hdue.
      * apply Z.leb_le in Hdue. destruct (Hr due c eq_refl) as [now0 ->].
        destruct (App.truthy (roomId c) && socket
                  && negb (bool_decide (text c = lastSyncRef r))) eqn:Hc.
        -- specialize (IH (mkRefs None (text c))).
           destruct (run rest _) as [r2 s2]. simpl in *. constructor.
           ++ exists now0, c. split; [by right |]. simpl.
              apply andb_true_iff in Hc as [Hc _].
              apply andb_true_iff in Hc as [Hc _]. done.
           ++ eapply Forall_impl; [apply IH; intros; done |].
              intros s (now' & c' & [Hin | Hp] & H); [| done].
              exists now', c'. split; [left; by right | done].
        -- specialize (IH (mkRefs None (lastSyncRef r))).
           destruct (run rest _) as [r2 s2]. simpl in *.
           eapply Forall_impl; [apply IH; intros; done |].
           intros s (now' & c' & [Hin | Hp] & H); [| done].
           exists now', c'. split; [left; by right | done].
      * rewrite <- Hd in Hr. specialize (IH r Hr). destruct (run rest r).
        simpl in *. rewrite Hd in IH.
        eapply Forall_impl; [exact IH |]. intros s. apply origin_tail.
    + rewrite <- Hd in Hr. specialize (IH r Hr). destruct (run rest r).
      simpl in *. rewrite Hd in IH.
      eapply Forall_impl; [exact IH |]. intros s. apply origin_tail.
  - specialize (IH (mkRefs None (lastSyncRef r))).
    destruct (run rest _) as [r2 s2]. simpl in *.
    eapply Forall_impl; [apply IH; intros; done |].
    intros s (now' & c' & [Hin | Hp] & H); [| done].
    exists now', c'. split; [left; by right | done].
Qed.

(** X25: the editor handler of the guide spaces and deduplicates what it
    sends.  When the clock does not go back, two [sync_code] events sent one
    after the other have timestamps at least 300 ms apart, and carry different
    texts (or both the empty text, when one change gave [undefined] and the
    other the empty string).  Every event sent carries the identity, the room
    and the text of a change made at least 300 ms before, in a render that had
    a room. *)
Theorem guide_sync_spaced (events : list event) :
  in_order events →
  let sent := (run events initial).2 in
  Sorted (fun s1 s2 => timestamp s1 + 300 ≤ timestamp s2) sent ∧
  Sorted (fun s1 s2 => code s1 = code s2 → code s1 = "") sent ∧
  Forall (fun s => ∃ now c, Change now c ∈ events ∧ now + 300 ≤ timestamp s ∧
            App.truthy (roomId c) = true ∧ user_id s = userId c ∧
            room_id s = roomId c ∧ code s = default "" (text c)) sent.
Proof.
  intros Ho. simpl. split; [| split].
  - destruct events as [| e rest]; [constructor |].
    apply (run_timestamps (e :: rest) initial (instant e)); [done | | done].
    constructor; [lia |]. by apply guide_in_order_head.
  - apply run_texts.
  - eapply Forall_impl; [apply (run_origin events initial); intros; done |].
    intros s (now & c & [Hin | Hp] & H); [| done]. by exists now, c.
Qed.

Lemma guide_sync_spaced_witness :
  let room := Some (JStr "room_1") in
  let events := [Change 0 (mkClosure (Some "a") room (Some "u1"));
                 Tick 300 true;
                 Change 350 (mkClosure (Some "ab") room (Some "u1"));
                 Tick 500 true; Tick 700 true] in
  (run events initial).2
    = [mkSyncCode (Some "u1") room "a" 300; mkSyncCode (Some "u1") room "ab" 700] ∧
  Sorted (fun s1 s2 => timestamp s1 + 300 ≤ timestamp s2) (run events initial).2.
Proof.
  split; [reflexivity |].
  refine (proj1 (guide_sync_spaced
    [Change 0 (mkClosure (Some "a") (Some (JStr "room_1")) (Some "u1"));
     Tick 300 true;
     Change 350 (mkClosure (Some "ab") (Some (JStr "room_1")) (Some "u1"));
     Tick 500 true; Tick 700 true] _)).
  unfold in_order. simpl. repeat constructor; lia.
Defined.

End GuideExtras.

(** ** Session recovery *)

Module PersistenceExtras.

Import Persistence.

Lemma active_for_spec uid b :
  active_for uid b = true ↔
  (player1_id b = Some uid ∨ player2_id b = Some uid) ∧ status b = Some "in_progress".
Proof.
  unfold active_for.
  rewrite andb_true_iff, orb_true_iff, !bool_decide_eq_true. done.
Qed.

Lemma first_active_Some uid db rid b :
  first_active uid db = Some (rid, b) → db !! rid = Some b ∧ active_for uid b = true.
Proof.
  unfold first_active. intros H.
  apply fmap_Some in H as ([i [k v]] & Hfind & [= -> ->]).
  apply list_find_Some in Hfind as (Hi & Hact & _).
  split; [| done]. apply elem_of_map_to_list. by eapply list_elem_of_lookup_2.
Qed.

Lemma first_active_None uid db rid b :
  first_active uid db = None → db !! rid = Some b → active_for uid b = false.
Proof.
  unfold first_active. intros H Hb.
  apply fmap_None, list_find_None in H. rewrite Forall_forall in H.
  apply elem_of_map_to_list in Hb. specialize (H _ Hb). simpl in H.
  by destruct (active_for uid b).
Qed.

Lemma connect_answers sid query_params rows :
  ∃ out, connect sid query_params (Some rows) = Some out.
Proof. unfold connect. repeat case_match; eauto. Qed.

Lemma connect_session sid query_params db out rid c1 c2 t1 t2 tt to :
  connect sid query_params db = Some out →
  session_recovered rid c1 c2 t1 t2 tt to ∈ out →
  to = sid ∧
  ∃ uid rows b, db = Some rows ∧ user_id_of_query query_params = Some uid ∧ uid ≠ "" ∧
    rows !! rid = Some b ∧ status b = Some "in_progress" ∧
    (player1_id b = Some uid ∨ player2_id b = Some uid) ∧
    c1 = player1_code b ∧ c2 = player2_code b ∧
    t1 = player1_tests b ∧ t2 = player2_tests b ∧ tt = total_tests b.
Proof.
  unfold connect. intros Hout Hin.
  destruct (user_id_of_query query_params) as [uid |];
    [| injection Hout as <-; by apply list_elem_of_singleton in Hin].
  destruct (bool_decide (uid = "")) eqn:Hu;
    [injection Hout as <-; by apply list_elem_of_singleton in Hin |].
  apply bool_decide_eq_false in Hu.
  destruct db as [rows |]; [| done].
  destruct (first_active uid rows) as [[rid' b] |] eqn:Hf;
    [| injection Hout as <-; by apply list_elem_of_singleton in Hin].
  injection Hout as <-.
  apply elem_of_cons in Hin as [Hin | Hin];
    [| by apply list_elem_of_singleton in Hin].
  injection Hin as -> -> -> -> -> -> ->.
  apply first_active_Some in Hf as [Hb Hact]. apply active_for_spec in Hact as [Hp Hs].
  split; [done |]. by exists uid, rows, b.
Qed.

(** X26: what [connect] recovers.  The handler raises, and sends nothing,
    exactly when the query string names an identity that is not empty and the
    database does not answer.  Otherwise the greeting [connection_response]
    is sent, last, and at most one [session_recovered] before it.  A session
    is recovered only
    for the identity read in the query string, not empty, and only from a
    battle that is in progress and that this identity plays in; it carries the
    codes and counts of that battle.  If the identity plays in a battle in
    progress, a session is recovered. *)
Theorem connect_recovers_active_battle (sid query_params : string) (db : option table) :
  (connect sid query_params db = None ↔
   db = None ∧ ∃ uid, user_id_of_query query_params = Some uid ∧ uid ≠ "") ∧
  match connect sid query_params db with
  | None => True
  | Some out =>
      last out = Some (connection_response "Connected to server" sid) ∧
      (length out ≤ 2)%nat ∧
      (∀ rid c1 c2 t1 t2 tt to,
         session_recovered rid c1 c2 t1 t2 tt to ∈ out →
         to = sid ∧
         ∃ uid rows b, db = Some rows ∧
           user_id_of_query query_params = Some uid ∧ uid ≠ "" ∧
           rows !! rid = Some b ∧ status b = Some "in_progress" ∧
           (player1_id b = Some uid ∨ player2_id b = Some uid) ∧
           c1 = player1_code b ∧ c2 = player2_code b ∧
           t1 = player1_tests b ∧ t2 = player2_tests b ∧ tt = total_tests b) ∧
      (∀ uid rows rid b,
         db = Some rows → user_id_of_query query_params = Some uid → uid ≠ "" →
         rows !! rid = Some b → status b = Some "in_progress" →
         player1_id b = Some uid ∨ player2_id b = Some uid →
         ∃ rid' c1 c2 t1 t2 tt,
           out = [session_recovered rid' c1 c2 t1 t2 tt sid;
                  connection_response "Connected to server" sid])
  end.
Proof.
  split.
  - unfold connect. split.
    + destruct (user_id_of_query query_params) as [uid |]; [| done].
      destruct (bool_decide (uid = "")) eqn:Hu; [done |].
      apply bool_decide_eq_false in Hu.
      destruct db as [rows |]; [by repeat case_match | eauto].
    + intros (-> & uid & -> & Hne). by rewrite bool_decide_eq_false_2.
  - destruct (connect sid query_params db) as [out |] eqn:Hout; [| done].
    split; [| split; [| split]].
    + unfold connect in Hout. repeat case_match; simplify_eq; done.
    + unfold connect in Hout. repeat case_match; simplify_eq; simpl; lia.
    + intros rid c1 c2 t1 t2 tt to Hin. by eapply connect_session.
    + intros uid rows rid b -> Hq Hne Hb Hs Hp. unfold connect in Hout.
      rewrite Hq, bool_decide_eq_false_2 in Hout by done.
      destruct (first_active uid rows) as [[rid' b'] |] eqn:Hf.
      * injection Hout as <-. eauto 10.
      * apply (first_active_None _ _ rid b) in Hf; [| done].
        assert (active_for uid b = true) by (by apply active_for_spec). congruence.
Qed.

Lemma first_active_unique uid db rid b :
  db !! rid = Some b → active_for uid b = true →
  (∀ rid' b', db !! rid' = Some b' → active_for uid b' = true → rid' = rid) →
  first_active uid db = Some (rid, b).
Proof.
  intros Hb Hact Huniq.
  destruct (first_active uid db) as [[rid' b'] |] eqn:Hf.
  - apply first_active_Some in Hf as [Hb' Hact'].
    assert (rid' = rid) as -> by eauto. congruence.
  - apply (first_active_None _ _ rid b) in Hf; [congruence | done].
Qed.

(** X27: a submission that is persisted is what a reconnection gets back.
    When a player of a battle in progress, who plays in no other, submits code
    that does not pass every test, a later [connect] with that identity in the
    query string recovers that room with the submitted code and the count of
    passed tests in the player's slot, the opponent's slot as it was, and the
    total of this run. *)
Theorem persisted_submission_is_recovered (sid sid' query_params uid rid code : string)
    (passed total : Z) (db : table) (b : BattleSession) :
  user_id_of_query query_params = Some uid → uid ≠ "" →
  db !! rid = Some b → status b = Some "in_progress" →
  player1_id b = Some uid ∨ player2_id b = Some uid →
  passed ≠ total →
  (∀ rid' b', db !! rid' = Some b' → active_for uid b' = true → rid' = rid) →
  let db' := (persist_submission sid (Some uid) (Some rid) code passed total db).1 in
  let mine := bool_decide (player1_id b = Some uid) in
  connect sid' query_params (Some db')
  = Some [session_recovered rid
            (if mine then code else player1_code b)
            (if mine then player2_code b else code)
            (if mine then passed else player1_tests b)
            (if mine then player2_tests b else passed)
            total sid';
          connection_response "Connected to server" sid'].
Proof.
  intros Hq Hne Hb Hs Hp Hpass Huniq. simpl.
  unfold persist_submission, connect. simpl. rewrite Hb. simpl.
  rewrite Hq, bool_decide_eq_false_2 by done.
  rewrite (first_active_unique uid _ rid
             (record_submission (Some uid) code passed total b)).
  - unfold record_submission. simpl.
    destruct (decide (player1_id b = Some uid)) as [Heq | Hneq].
    + rewrite !(bool_decide_eq_true_2 (player1_id b = Some uid)) by done.
      by rewrite !(bool_decide_eq_true_2 (Some uid = player1_id b)) by done.
    + rewrite !(bool_decide_eq_false_2 (player1_id b = Some uid)) by done.
      by rewrite !(bool_decide_eq_false_2 (Some uid = player1_id b)) by done.
  - apply lookup_insert_eq.
  - apply active_for_spec. simpl.
    by rewrite (bool_decide_eq_false_2 (passed = total)) by done.
  - intros rid' b' Hb' Hact'. destruct (decide (rid' = rid)) as [| Hdiff]; [done |].
    rewrite lookup_insert_ne in Hb' by done. eauto.
Qed.

Lemma persisted_submission_is_recovered_witness :
  let b := mkSession (Some "ann") (Some "bob") (Some "palindrome") "" "" 0 0 3
             (Some "in_progress") None in
  let db : table := {[ "room_1" := b ]} in
  connect "s2" "user_id=ann&token=1"
    (Some (persist_submission "s1" (Some "ann") (Some "room_1") "return s" 1 3 db).1)
  = Some [session_recovered "room_1" "return s" "" 1 0 3 "s2";
          connection_response "Connected to server" "s2"].
Proof.
  refine (persisted_submission_is_recovered "s1" "s2" "user_id=ann&token=1" "ann"
            "room_1" "return s" 1 3
            {[ "room_1" := mkSession (Some "ann") (Some "bob") (Some "palindrome")
                             "" "" 0 0 3 (Some "in_progress") None ]}
            (mkSession (Some "ann") (Some "bob") (Some "palindrome") "" "" 0 0 3
               (Some "in_progress") None) _ _ _ _ _ _ _).
  - reflexivity.
  - done.
  - reflexivity.
  - reflexivity.
  - left. reflexivity.
  - lia.
  - intros rid' b' H _. by apply lookup_singleton_Some in H as [<- _].
Defined.

(** X28: a submission that passes every test closes the battle for whoever
    sent it, a player of the battle or not: the row is completed with the
    sender as winner, and no later [connect], of anyone, recovers that room,
    whether the database answers it (the handler then returns) or not. *)
Theorem won_battle_is_not_recovered (sid : string) (user_id : option string)
    (rid code : string) (passed total : Z) (db : table) (b : BattleSession) :
  db !! rid = Some b → passed = total →
  let db' := (persist_submission sid user_id (Some rid) code passed total db).1 in
  (∃ b', db' !! rid = Some b' ∧ status b' = Some "completed" ∧ winner_id b' = user_id) ∧
  (∀ sid' query_params,
     ∃ out, connect sid' query_params (Some db') = Some out ∧
       ∀ c1 c2 t1 t2 tt to, session_recovered rid c1 c2 t1 t2 tt to ∉ out) ∧
  (∀ sid' query_params out,
     connect sid' query_params None = Some out →
     ∀ c1 c2 t1 t2 tt to, session_recovered rid c1 c2 t1 t2 tt to ∉ out).
Proof.
  intros Hb Hpass. simpl. unfold persist_submission. simpl. rewrite Hb. simpl.
  split; [| split].
  - eexists. split; [apply lookup_insert_eq |]. simpl.
    by rewrite bool_decide_eq_true_2.
  - intros sid' query.
    destruct (connect_answers sid' query
                (<[rid := record_submission user_id code passed total b]> db))
      as [out Hout].
    exists out. split; [done |]. intros c1 c2 t1 t2 tt to Hin.
    eapply connect_session in Hin as (_ & uid & rows & b' & Hrows & _ & _ & Hb' & Hs & _);
      [| exact Hout].
    injection Hrows as <-.
    rewrite lookup_insert_eq in Hb'. injection Hb' as <-. simpl in Hs.
    by rewrite bool_decide_eq_true_2 in Hs.
  - intros sid' query out Hout c1 c2 t1 t2 tt to Hin.
    by eapply connect_session in Hin as (_ & ? & ? & ? & ? & _); [| exact Hout].
Qed.

Lemma won_battle_is_not_recovered_witness :
  let b := mkSession (Some "ann") (Some "bob") (Some "palindrome") "" "" 0 0 3
             (Some "in_progress") None in
  let db' := (persist_submission "s9" (Some "eve") (Some "room_1") "return s" 3 3
                {[ "room_1" := b ]}).1 in
  (∃ b', db' !! "room_1" = Some b' ∧ status b' = Some "completed"
         ∧ winner_id b' = Some "eve") ∧
  connect "s2" "user_id=ann" (Some db')
  = Some [connection_response "Connected to server" "s2"].
Proof.
  split; [| reflexivity].
  refine (proj1 (won_battle_is_not_recovered "s9" (Some "eve") "room_1" "return s" 3 3
            {[ "room_1" := mkSession (Some "ann") (Some "bob") (Some "palindrome")
                             "" "" 0 0 3 (Some "in_progress") None ]}
            (mkSession (Some "ann") (Some "bob") (Some "palindrome") "" "" 0 0 3
               (Some "in_progress") None) _ _)).
  - reflexivity.
  - reflexivity.
Defined.

(** *** The query string *)

Lemma append_nil_l (s : string) : "" +:+ s = s.
Proof. reflexivity. Qed.

Lemma append_cons (c : ascii) (a s : string) : String c a +:+ s = String c (a +:+ s).
Proof. reflexivity. Qed.

Lemma append_empty (s : string) : s +:+ "" = s.
Proof. induction s as [| c s IH]; [done |]. by rewrite append_cons, IH. Qed.

Ltac append_norm := repeat first [rewrite append_cons | rewrite append_nil_l].

Lemma contains_suffix pat a b :
  JavaExecutor.contains pat (a +:+ b) = false → String.prefix pat b = false.
Proof.
  induction a as [| c a IH]; append_norm.
  - destruct b; simpl; intros H; by apply orb_false_iff in H as [H _].
  - simpl. intros H. apply orb_false_iff in H as [_ H]. by apply IH.
Qed.

Lemma prefix_append pat s : String.prefix pat (pat +:+ s) = true.
Proof.
  induction pat as [| c pat IH]; append_norm.
  - by destruct s.
  - cbn [String.prefix]. by destruct (ascii_dec c c).
Qed.

Lemma contains_app_r pat a s :
  String.prefix pat s = true → JavaExecutor.contains pat (a +:+ s) = true.
Proof.
  intros H. induction a as [| c a IH]; append_norm.
  - destruct s; simpl in *; by rewrite H.
  - simpl. rewrite IH. apply orb_true_r.
Qed.

(** A piece that no occurrence of the separator begins in goes to the first
    piece whole. *)
Lemma split_go_app sep pre s :
  (∀ a b, pre = a +:+ b → b ≠ "" → String.prefix sep (b +:+ s) = false) →
  split_go sep O (pre +:+ s)
  = ((pre +:+ (split_go sep O s).1)%string, (split_go sep O s).2).
Proof.
  induction pre as [| c pre IH]; intros H; append_norm.
  - by destruct (split_go sep O s).
  - cbn [split_go].
    pose proof (H "" (String c pre) eq_refl) as H0. rewrite append_cons in H0.
    rewrite H0 by done.
    rewrite IH.
    + done.
    + intros a b -> Hb. apply (H (String c a) b); done.
Qed.

(** The characters of an occurrence are dropped. *)
Lemma split_go_skip sep pre s :
  split_go sep (String.length pre) (pre +:+ s) = split_go sep O s.
Proof. induction pre as [| c pre IH]; append_norm; [done |]. simpl. apply IH. Qed.

Lemma split_go_occurrence sep s :
  sep ≠ "" →
  split_go sep O (sep +:+ s)
  = (EmptyString, (split_go sep O s).1 :: (split_go sep O s).2).
Proof.
  destruct sep as [| c sep]; [done |]. intros _.
  pose proof (prefix_append (String c sep) s) as Hp.
  pose proof (split_go_skip (String c sep) sep s) as Hs.
  rewrite append_cons in *. cbn [split_go]. rewrite Hp.
  replace (String.length (String c sep) - 1)%nat with (String.length sep)
    by (simpl; lia).
  rewrite Hs. by destruct (split_go (String c sep) 0 s).
Qed.

Ltac next_char b c :=
  destruct b as [| c b]; append_norm; cbn [String.prefix]; [by vm_compute |];
  destruct (ascii_dec _ c) as [<- |]; [| done].

(** The pattern ["user_id="] does not overlap itself: an occurrence that
    begins in [b], in front of an occurrence, lies in [b]. *)
Lemma no_overlap b s :
  String.prefix "user_id=" (b +:+ "user_id=" +:+ s) = true →
  b = "" ∨ String.prefix "user_id=" b = true.
Proof.
  destruct b as [| c1 b]; [by left |]. right. revert H. append_norm.
  cbn [String.prefix].
  destruct (ascii_dec _ c1) as [<- |]; [| done].
  next_char b c2. next_char b c3. next_char b c4. next_char b c5.
  next_char b c6. next_char b c7. next_char b c8. by destruct b.
Qed.

(** Nor does an occurrence reach over an ampersand. *)
Lemma no_ampersand b q :
  String.prefix "user_id=" (b +:+ "&" +:+ q) = true →
  String.prefix "user_id=" b = true.
Proof.
  next_char b c1. next_char b c2. next_char b c3. next_char b c4. next_char b c5.
  next_char b c6. next_char b c7. next_char b c8. by destruct b.
Qed.

Lemma ampersand_first b s :
  b ≠ "" → String.prefix "&" b = false → String.prefix "&" (b +:+ s) = false.
Proof.
  destruct b as [| c b]; [done |]. append_norm. cbn [String.prefix]. intros _.
  destruct (ascii_dec _ c); [| done]. by destruct b.
Qed.

(** X29: the identity [connect] reads is what follows the first occurrence
    of the text [user_id=] in the query string, up to the next ampersand or
    the end, whether that occurrence is a parameter of its own or the end of
    another parameter's name. *)
Theorem user_id_of_query_first_occurrence (pre u post : string) :
  JavaExecutor.contains "user_id=" pre = false →
  JavaExecutor.contains "user_id=" u = false →
  JavaExecutor.contains "&" u = false →
  post = "" ∨ (∃ q, post = "&" +:+ q) →
  user_id_of_query (pre +:+ "user_id=" +:+ u +:+ post) = Some u.
Proof.
  intros Hpre Hu Hamp Hpost. unfold user_id_of_query.
  rewrite contains_app_r by apply prefix_append.
  unfold split.
  rewrite split_go_app.
  2:{ intros a b -> Hb.
      destruct (String.prefix "user_id=" (b +:+ "user_id=" +:+ u +:+ post)) eqn:Hp;
        [| done].
      apply no_overlap in Hp as [-> | Hp]; [done |].
      by rewrite (contains_suffix _ a b Hpre) in Hp. }
  rewrite split_go_occurrence by done.
  rewrite split_go_app.
  2:{ intros a b -> Hb.
      destruct Hpost as [-> | [q ->]].
      - rewrite append_empty. by apply (contains_suffix _ a b).
      - destruct (String.prefix "user_id=" (b +:+ "&" +:+ q)) eqn:Hp; [| done].
        apply no_ampersand in Hp. by rewrite (contains_suffix _ a b Hu) in Hp. }
  simpl. f_equal.
  assert (Hx : (split_go "user_id=" 0 post).1 = ""
               ∨ ∃ x, (split_go "user_id=" 0 post).1 = "&" +:+ x).
  { destruct Hpost as [-> | [q ->]]; [by left |]. right. append_norm. simpl.
    destruct (split_go "user_id=" 0 q) as [x xs]. by exists x. }
  rewrite split_go_app.
  2:{ intros a b -> Hb. apply ampersand_first; [done |].
      by apply (contains_suffix _ a b). }
  simpl. destruct Hx as [-> | [x ->]].
  - simpl. apply append_empty.
  - rewrite (split_go_occurrence "&" x) by done. simpl. apply append_empty.
Qed.

Lemma user_id_of_query_first_occurrence_witness :
  user_id_of_query "token=1&user_id=ann&x=2" = Some "ann" ∧
  user_id_of_query "other_user_id=ann&x=2" = Some "ann".
Proof.
  split.
  - apply (user_id_of_query_first_occurrence "token=1&" "ann" "&x=2");
      [reflexivity | reflexivity | reflexivity | right; by exists "x=2"].
  - apply (user_id_of_query_first_occurrence "other_" "ann" "&x=2");
      [reflexivity | reflexivity | reflexivity | right; by exists "x=2"].
Defined.

End PersistenceExtras.
